(** * LinuxNativeDispatcher.c: metadata queries and in-kernel copy

    A shallow embedding of [statx0], [statxfd0] and [directCopy0] of
    src/java.base/linux/native/libnio/fs/LinuxNativeDispatcher.c, with the
    helpers they use ([statx_wrapper], [RESTARTABLE], [throwUnixException],
    [copy_statx_attributes]).

    The kernel is an environment: a run of a native method is given the
    list of answers the kernel gives to the calls the method issues, in
    order.  A run that needs more answers than the list holds has not
    returned yet and yields [None].  What the method does to the outside
    is kept in a [state]: [errno], the Java heap, the pending Java
    exception, and the trace of kernel calls, polls of the cancellation
    word and JNI field writes. *)

From stdpp Require Import base option list strings gmap.
From Stdlib Require Import ZArith Lia.

Local Open Scope Z_scope.

(** ** Constants *)

(** <errno.h> on Linux. *)
Definition EINTR : Z := 4.
Definition EAGAIN : Z := 11.
Definition EXDEV : Z := 18.
Definition EINVAL : Z := 22.
Definition ENOSYS : Z := 38.
Definition ECANCELED : Z := 125.

(** The statx masks and flags, lines 96-129 of the source. *)
Definition AT_SYMLINK_NOFOLLOW : Z := 0x100.
Definition AT_STATX_SYNC_AS_STAT : Z := 0x0000.
Definition STATX_BASIC_STATS : Z := 0x000007ff.
Definition STATX_BTIME : Z := 0x00000800.
Definition STATX_ALL : Z := Z.lor STATX_BTIME STATX_BASIC_STATS.
Definition AT_EMPTY_PATH : Z := 0x1000.
Definition AT_FDCWD : Z := -100.

Definition NO_FOLLOW_SYMLINK : Z := 1.
Definition FOLLOW_SYMLINK : Z := 0.

(** jni.h *)
Definition JNI_FALSE : Z := 0.
Definition JNI_TRUE : Z := 1.

(** Modelled from the spec: nio.h, which gives the IOS_ status macros their
    numbers, is not among the sources.  The return comment of directCopy0
    and the TransferOutcome variants of the spec list them as statuses that
    differ from each other and from the 0 of success; they are kept as the
    constructors of an enumeration, [OK] standing for the returned 0. *)
Inductive ios : Set :=
  | OK
  | IOS_UNAVAILABLE
  | IOS_UNSUPPORTED_CASE
  | IOS_UNSUPPORTED
  | IOS_THROWN.

#[global] Instance ios_eq_dec : EqDecision ios.
Proof. solve_decision. Defined.

(** ** Integer conversions *)

(** The casts [(jint)] and [(jlong)]: the value modulo 2^32 (2^64), read as
    a signed two's complement number. *)
Definition wrap_signed (w : Z) (z : Z) : Z :=
  (z + 2 ^ (w - 1)) mod 2 ^ w - 2 ^ (w - 1).
Definition to_jint : Z -> Z := wrap_signed 32.
Definition to_jlong : Z -> Z := wrap_signed 64.

(** [makedev] of <sys/sysmacros.h> (glibc), on a 64-bit [dev_t]. *)
Definition makedev (major minor : Z) : Z :=
  Z.lor (Z.lor (Z.lor
    (Z.shiftl (Z.land major 0x00000fff) 8)
    (Z.shiftl (Z.land major 0xfffff000) 32))
    (Z.shiftl (Z.land minor 0x000000ff) 0))
    (Z.shiftl (Z.land minor 0xffffff00) 12).

(** ** Data *)

Record statx_timestamp := {
  tv_sec : Z;
  tv_nsec : Z
}.

(** [struct statx], the members the dispatcher reads. *)
Record statx := {
  stx_mask : Z;
  stx_nlink : Z;
  stx_uid : Z;
  stx_gid : Z;
  stx_mode : Z;
  stx_ino : Z;
  stx_size : Z;
  stx_atime : statx_timestamp;
  stx_btime : statx_timestamp;
  stx_ctime : statx_timestamp;
  stx_mtime : statx_timestamp;
  stx_rdev_major : Z;
  stx_rdev_minor : Z;
  stx_dev_major : Z;
  stx_dev_minor : Z
}.

(** A function pointer filled in by dlsym at initialisation. *)
Inductive fnptr : Set := NULL | Resolved.

(** The two static function pointers of the file: the capability table. *)
Record globals := {
  my_statx_func : fnptr;
  my_copy_file_range_func : fnptr
}.

(** Java objects are references into a heap of field tables; a [jfieldID]
    is the name the field was looked up by in [init]. *)
Definition jobject := positive.
Definition jfieldID := string.

Definition attrs_st_mode : jfieldID := "st_mode".
Definition attrs_st_ino : jfieldID := "st_ino".
Definition attrs_st_dev : jfieldID := "st_dev".
Definition attrs_st_rdev : jfieldID := "st_rdev".
Definition attrs_st_nlink : jfieldID := "st_nlink".
Definition attrs_st_uid : jfieldID := "st_uid".
Definition attrs_st_gid : jfieldID := "st_gid".
Definition attrs_st_size : jfieldID := "st_size".
Definition attrs_st_atime_sec : jfieldID := "st_atime_sec".
Definition attrs_st_atime_nsec : jfieldID := "st_atime_nsec".
Definition attrs_st_mtime_sec : jfieldID := "st_mtime_sec".
Definition attrs_st_mtime_nsec : jfieldID := "st_mtime_nsec".
Definition attrs_st_ctime_sec : jfieldID := "st_ctime_sec".
Definition attrs_st_ctime_nsec : jfieldID := "st_ctime_nsec".
Definition attrs_st_birthtime_sec : jfieldID := "st_birthtime_sec".
Definition attrs_stx_btime_nsec : jfieldID := "stx_birthtime_nsec".

(** Exceptions the file raises. *)
Inductive jthrowable : Type :=
  | UnixException (errnum : Z)
  | IOExceptionWithLastError (lasterr : Z) (msg : string).

#[global] Instance jthrowable_eq_dec : EqDecision jthrowable.
Proof. solve_decision. Defined.

(** The kernel calls the file issues, with their arguments; a NULL
    offset pointer is [None]. *)
Inductive syscall : Type :=
  | sys_statx (dirfd : Z) (pathname : string) (flags : Z) (mask : Z)
  | sys_copy_file_range (fd_in : Z) (off_in : option Z) (fd_out : Z)
      (off_out : option Z) (len : Z) (flags : Z)
  | sys_sendfile64 (out_fd : Z) (in_fd : Z) (offset : option Z) (count : Z).

#[global] Instance syscall_eq_dec : EqDecision syscall.
Proof. solve_decision. Defined.

Inductive event : Type :=
  | Syscall (c : syscall) (ret : Z)
  | ReadCancel (value : Z)
  | JniSetField (obj : jobject) (f : jfieldID) (v : Z).

#[global] Instance event_eq_dec : EqDecision event.
Proof. solve_decision. Defined.

Record state := {
  errno : Z;
  heap : gmap jobject (gmap jfieldID Z);
  pending : option jthrowable;
  trace : list event
}.

Definition set_errno (e : Z) (st : state) : state :=
  {| errno := e; heap := heap st; pending := pending st; trace := trace st |}.
Definition set_heap (h : gmap jobject (gmap jfieldID Z)) (st : state) : state :=
  {| errno := errno st; heap := h; pending := pending st; trace := trace st |}.
Definition log (ev : event) (st : state) : state :=
  {| errno := errno st; heap := heap st; pending := pending st;
     trace := trace st ++ [ev] |}.

(** ** The kernel as an environment *)

(** What a call answers: success with its result, or failure with the
    error number the kernel leaves in [errno].  Error numbers are
    positive. *)
Inductive response (A : Type) : Type :=
  | Success (a : A)
  | Failure (e : positive).
Arguments Success {A} a.
Arguments Failure {A} e.

(** One answer to copy_file_range or sendfile64: the byte count, and the
    content of the caller's cancellation word once the call is back. *)
Record xstep := {
  answer : response N;
  cancel_word : Z
}.

(** The C return value of a kernel call. *)
Definition statx_ret (r : response statx) : Z :=
  match r with Success _ => 0 | Failure _ => -1 end.
Definition xfer_ret (s : xstep) : Z :=
  match answer s with Success n => Z.of_N n | Failure _ => -1 end.

Definition statx_err (r : response statx) : option positive :=
  match r with Success _ => None | Failure e => Some e end.
Definition xfer_err (s : xstep) : option positive :=
  match answer s with Success _ => None | Failure e => Some e end.

(** The kernel performs call [c] and answers: the call is traced, and a
    failure stores its error number in [errno]. *)
Definition after_call (c : syscall) (ret : Z) (err : option positive)
    (st : state) : state :=
  let st1 := log (Syscall c ret) st in
  match err with
  | Some e => set_errno (Z.pos e) st1
  | None => st1
  end.

Section Restartable.
Context {E : Type} (ret : E -> Z) (err : E -> option positive).

(** The macro RESTARTABLE(_cmd, _result), lines 170-174: [_cmd] is issued
    again while it returns -1 with errno EINTR.  The result is the answer
    that ended the loop with the answers not yet consumed, or [None] when
    the answers ran out. *)
Fixpoint RESTARTABLE (cmd : syscall) (k : list E) (st : state)
    : option (E * list E) * state :=
  match k with
  | [] => (None, st)
  | r :: k' =>
      let st1 := after_call cmd (ret r) (err r) st in
      let _result := ret r in
      if (_result =? -1) && (errno st1 =? EINTR)
      then RESTARTABLE cmd k' st1
      else (Some (r, k'), st1)
  end.

(** Answer [r] is the interrupted-call error. *)
Definition eintr (r : E) : bool :=
  match err r with Some e => Z.pos e =? EINTR | None => false end.

(** The state after the calls answered by [pre], one call per answer. *)
Definition retries (cmd : syscall) (pre : list E) (st : state) : state :=
  fold_left (fun st r => after_call cmd (ret r) (err r) st) pre st.
End Restartable.

(** ** JNI *)

(** The part of [JNIEnv] the model needs: whether the JVM can build a new
    exception object. *)
Record JNIEnv := {
  can_allocate : bool
}.

(** Modelled from the spec: JNU_NewObjectByName of jni_util is not among
    the sources.  It builds an object of the named class from one int
    argument, here the UnixException carrying the error number, and
    returns NULL when the JVM cannot build it. *)
Definition JNU_NewObjectByName (env : JNIEnv) (class_name : string)
    (errnum : Z) : option jthrowable :=
  if can_allocate env then Some (UnixException errnum) else None.

Definition Throw (x : jthrowable) (st : state) : state :=
  {| errno := errno st; heap := heap st; pending := Some x;
     trace := trace st |}.

(** Lines 176-182. *)
Definition throwUnixException (env : JNIEnv) (errnum : Z) (st : state)
    : state :=
  let x := JNU_NewObjectByName env "sun/nio/fs/UnixException" errnum in
  match x with
  | Some x => Throw x st
  | None => st
  end.

(** Modelled from the spec: JNU_ThrowIOExceptionWithLastError of jni_util
    is not among the sources.  It raises an IOException that carries the
    current [errno] (Failed with that error) and the given message. *)
Definition JNU_ThrowIOExceptionWithLastError (msg : string) (st : state)
    : state :=
  Throw (IOExceptionWithLastError (errno st) msg) st.

(** SetIntField and SetLongField: the field of the referenced object is
    overwritten.  A reference that is not live is outside JNI's contract;
    the heap is then left as it is. *)
Definition SetField (obj : jobject) (f : jfieldID) (v : Z) (st : state)
    : state :=
  set_heap (alter (insert f v) obj (heap st)) (log (JniSetField obj f v) st).
Definition SetIntField := SetField.
Definition SetLongField := SetField.

(** ** Metadata queries *)

(** Lines 335-355. *)
Definition copy_statx_attributes (buf : statx) (attrs : jobject)
    (st : state) : state :=
  let st := SetIntField attrs attrs_st_mode (to_jint (stx_mode buf)) st in
  let st := SetLongField attrs attrs_st_ino (to_jlong (stx_ino buf)) st in
  let st := SetIntField attrs attrs_st_nlink (to_jint (stx_nlink buf)) st in
  let st := SetIntField attrs attrs_st_uid (to_jint (stx_uid buf)) st in
  let st := SetIntField attrs attrs_st_gid (to_jint (stx_gid buf)) st in
  let st := SetLongField attrs attrs_st_size (to_jlong (stx_size buf)) st in
  let st := SetLongField attrs attrs_st_atime_sec
              (to_jlong (tv_sec (stx_atime buf))) st in
  let st := SetLongField attrs attrs_st_mtime_sec
              (to_jlong (tv_sec (stx_mtime buf))) st in
  let st := SetLongField attrs attrs_st_ctime_sec
              (to_jlong (tv_sec (stx_ctime buf))) st in
  let st := SetLongField attrs attrs_st_birthtime_sec
              (to_jlong (tv_sec (stx_btime buf))) st in
  let st := SetLongField attrs attrs_stx_btime_nsec
              (to_jlong (tv_nsec (stx_btime buf))) st in
  let st := SetLongField attrs attrs_st_atime_nsec
              (to_jlong (tv_nsec (stx_atime buf))) st in
  let st := SetLongField attrs attrs_st_mtime_nsec
              (to_jlong (tv_nsec (stx_mtime buf))) st in
  let st := SetLongField attrs attrs_st_ctime_nsec
              (to_jlong (tv_nsec (stx_ctime buf))) st in
  let dev := makedev (stx_dev_major buf) (stx_dev_minor buf) in
  let rdev := makedev (stx_rdev_major buf) (stx_rdev_minor buf) in
  let st := SetLongField attrs attrs_st_dev (to_jlong dev) st in
  SetLongField attrs attrs_st_rdev (to_jlong rdev) st.

(** Lines 158-164: the call [my_statx_func] is entered with. *)
Definition statx_wrapper (dirfd : Z) (pathname : string) (flags : Z)
    (mask : Z) (follow_symlink : Z) : syscall :=
  let flags :=
    if follow_symlink =? NO_FOLLOW_SYMLINK
    then Z.lor flags AT_SYMLINK_NOFOLLOW
    else flags in
  sys_statx dirfd pathname flags mask.

(** The local [statx_buf] before the kernel has filled it. *)
Definition statx_timestamp_zero : statx_timestamp :=
  {| tv_sec := 0; tv_nsec := 0 |}.
Definition statx_buf_unset : statx :=
  {| stx_mask := 0; stx_nlink := 0; stx_uid := 0; stx_gid := 0;
     stx_mode := 0; stx_ino := 0; stx_size := 0;
     stx_atime := statx_timestamp_zero; stx_btime := statx_timestamp_zero;
     stx_ctime := statx_timestamp_zero; stx_mtime := statx_timestamp_zero;
     stx_rdev_major := 0; stx_rdev_minor := 0;
     stx_dev_major := 0; stx_dev_minor := 0 |}.

(** The kernel writes [*statxbuf] on success only. *)
Definition statx_filled (r : response statx) (old : statx) : statx :=
  match r with Success b => b | Failure _ => old end.

(** Lines 357-384.  [path] is the string at [pathAddress]. *)
Definition statx0 (env : JNIEnv) (g : globals) (path : string)
    (attrs : jobject) (follow_links : Z) (k : list (response statx))
    (st : state) : option Z * state :=
  let flags := AT_STATX_SYNC_AS_STAT in
  let mask := STATX_ALL in
  let f_symlink := FOLLOW_SYMLINK in
  match my_statx_func g with
  | Resolved =>
      let f_symlink :=
        if follow_links =? JNI_FALSE then NO_FOLLOW_SYMLINK else f_symlink in
      match RESTARTABLE statx_ret statx_err
              (statx_wrapper AT_FDCWD path flags mask f_symlink) k st with
      | (None, st1) => (None, st1)
      | (Some (r, _), st1) =>
          let err := statx_ret r in
          let statx_buf := statx_filled r statx_buf_unset in
          if err =? 0
          then (Some 0, copy_statx_attributes statx_buf attrs st1)
          else (Some (errno st1), st1)
      end
  | NULL => (Some 0, st)
  end.

(** Lines 386-410. *)
Definition statxfd0 (env : JNIEnv) (g : globals) (fd : Z) (attrs : jobject)
    (k : list (response statx)) (st : state) : option Z * state :=
  let flags := Z.lor AT_EMPTY_PATH AT_STATX_SYNC_AS_STAT in
  let mask := STATX_ALL in
  match my_statx_func g with
  | Resolved =>
      match RESTARTABLE statx_ret statx_err
              (statx_wrapper fd "" flags mask FOLLOW_SYMLINK) k st with
      | (None, st1) => (None, st1)
      | (Some (r, _), st1) =>
          let err := statx_ret r in
          let statx_buf := statx_filled r statx_buf_unset in
          if err =? 0
          then (Some 0, copy_statx_attributes statx_buf attrs st1)
          else (Some (errno st1), st1)
      end
  | NULL => (Some 0, st)
  end.

(** ** In-kernel copy *)

(** Line 436: the size asked for in every chunk; [cancel] is the pointer
    made from [cancelAddress], NULL being 0. *)
Definition count_of (cancel : Z) : Z :=
  if negb (cancel =? 0)
  then 1048576      (* 1 MB to give cancellation a chance *)
  else 0x7ffff000.  (* maximum number of bytes that sendfile() can transfer *)

(** [cancel != NULL && *cancel != 0]: the word is read, and the read
    traced, only behind a non-NULL pointer. *)
Definition poll_cancel (cancel : Z) (s : xstep) (st : state) : bool * state :=
  if negb (cancel =? 0)
  then (negb (cancel_word s =? 0), log (ReadCancel (cancel_word s)) st)
  else (false, st).

(** How a do-while loop of directCopy0 is left. *)
Inductive loop_exit : Type :=
  | Return (r : ios)
  | Leave (bytes_sent : Z) (k : list xstep)
  | Starved.

(** Lines 442-461.  Every turn consumes at least one answer, so [fuel] at
    least the number of answers never runs out before they do. *)
Fixpoint copy_file_range_loop (fuel : nat) (env : JNIEnv) (dst src : Z)
    (cancel : Z) (count : Z) (k : list xstep) (st : state)
    : loop_exit * state :=
  match fuel with
  | O => (Starved, st)
  | S fuel =>
      match RESTARTABLE xfer_ret xfer_err
              (sys_copy_file_range src None dst None count 0) k st with
      | (None, st1) => (Starved, st1)
      | (Some (r, k'), st1) =>
          let bytes_sent := xfer_ret r in
          if (bytes_sent <? 0)
             && negb ((errno st1 =? EINVAL) || (errno st1 =? ENOSYS)
                      || (errno st1 =? EXDEV))
          then (Return IOS_THROWN,
                JNU_ThrowIOExceptionWithLastError "Copy failed" st1)
          else
            let (cancelled, st2) := poll_cancel cancel r st1 in
            if cancelled
            then (Return IOS_THROWN, throwUnixException env ECANCELED st2)
            else if bytes_sent >? 0
                 then copy_file_range_loop fuel env dst src cancel count k' st2
                 else (Leave bytes_sent k', st2)
      end
  end.

(** Lines 467-481. *)
Fixpoint sendfile_loop (fuel : nat) (env : JNIEnv) (dst src : Z)
    (cancel : Z) (count : Z) (k : list xstep) (st : state)
    : loop_exit * state :=
  match fuel with
  | O => (Starved, st)
  | S fuel =>
      match RESTARTABLE xfer_ret xfer_err
              (sys_sendfile64 dst src None count) k st with
      | (None, st1) => (Starved, st1)
      | (Some (r, k'), st1) =>
          let bytes_sent := xfer_ret r in
          if bytes_sent <? 0
          then
            if errno st1 =? EAGAIN
            then (Return IOS_UNAVAILABLE, st1)
            else if (errno st1 =? EINVAL) || (errno st1 =? ENOSYS)
                 then (Return IOS_UNSUPPORTED_CASE, st1)
                 else (Return IOS_THROWN,
                       throwUnixException env (errno st1) st1)
          else
            let (cancelled, st2) := poll_cancel cancel r st1 in
            if cancelled
            then (Return IOS_THROWN, throwUnixException env ECANCELED st2)
            else if bytes_sent >? 0
                 then sendfile_loop fuel env dst src cancel count k' st2
                 else (Leave bytes_sent k', st2)
      end
  end.

(** Tier B: the sendfile loop and the [return 0] after it. *)
Definition tier_B (env : JNIEnv) (dst src : Z) (cancel : Z) (count : Z)
    (k : list xstep) (st : state) : option ios * state :=
  match sendfile_loop (length k) env dst src cancel count k st with
  | (Return r, st1) => (Some r, st1)
  | (Leave _ _, st1) => (Some OK, st1)
  | (Starved, st1) => (None, st1)
  end.

(** Lines 429-484. *)
Definition directCopy0 (env : JNIEnv) (g : globals) (dst src : Z)
    (cancelAddress : Z) (k : list xstep) (st : state) : option ios * state :=
  let cancel := cancelAddress in
  let count := count_of cancel in
  match my_copy_file_range_func g with
  | Resolved =>
      match copy_file_range_loop (length k) env dst src cancel count k st with
      | (Return r, st1) => (Some r, st1)
      | (Starved, st1) => (None, st1)
      | (Leave bytes_sent k', st1) =>
          if bytes_sent =? 0
          then (Some OK, st1)
          else tier_B env dst src cancel count k' st1
      end
  | NULL => tier_B env dst src cancel count k st
  end.

(** ** Vocabulary of the statements *)

Definition state0 : state :=
  {| errno := 0; heap := ∅; pending := None; trace := [] |}.

(** The answer is the interrupted-call error. *)
Definition statx_interrupted : response statx -> bool := eintr statx_err.
Definition interrupted : xstep -> bool := eintr xfer_err.

(** The cancellation word is read after answer [s] and found set. *)
Definition observes_set (cancel : Z) (s : xstep) : bool :=
  negb (cancel =? 0) && negb (cancel_word s =? 0).

(** Answer [s] keeps a chunk loop turning: the call is restarted, or a
    chunk of positive length went through and no cancellation is seen. *)
Definition goes_on (cancel : Z) (s : xstep) : bool :=
  interrupted s
  || (match answer s with Success n => 0 <? Z.of_N n | Failure _ => false end
      && negb (observes_set cancel s)).

Definition xfer_call (c : syscall) (s : xstep) (st : state) : state :=
  after_call c (xfer_ret s) (xfer_err s) st.
Definition statx_call (c : syscall) (r : response statx) (st : state) : state :=
  after_call c (statx_ret r) (statx_err r) st.

Definition statx_retries : syscall -> list (response statx) -> state -> state :=
  retries statx_ret statx_err.

(** The state after one answer that is not a fatal error: the call, then
    the poll unless the call is restarted. *)
Definition turn (c : syscall) (cancel : Z) (st : state) (s : xstep) : state :=
  let st1 := xfer_call c s st in
  if interrupted s then st1 else snd (poll_cancel cancel s st1).
Definition turns (c : syscall) (cancel : Z) (pre : list xstep) (st : state)
    : state :=
  fold_left (turn c cancel) pre st.

Definition cfr_call (dst src cancel : Z) : syscall :=
  sys_copy_file_range src None dst None (count_of cancel) 0.
Definition sendfile_call (dst src cancel : Z) : syscall :=
  sys_sendfile64 dst src None (count_of cancel).

Definition is_sendfile (ev : event) : bool :=
  match ev with Syscall (sys_sendfile64 _ _ _ _) _ => true | _ => false end.
Definition is_field_write (ev : event) : bool :=
  match ev with JniSetField _ _ _ => true | _ => false end.

(** The sendfile64 calls issued so far. *)
Definition sendfile_calls (st : state) : list event :=
  List.filter is_sendfile (trace st).

(** The JNI field writes made so far, and the kernel calls issued so far. *)
Definition field_writes (st : state) : list event :=
  List.filter is_field_write (trace st).
Definition syscalls_of (evs : list event) : list syscall :=
  omap (fun ev => match ev with Syscall c _ => Some c | _ => None end) evs.

(** The answer RESTARTABLE hands to the code: the first that is not the
    interrupted-call error. *)
Definition statx_delivered (k : list (response statx))
    : option (response statx) :=
  List.find (fun r => negb (statx_interrupted r)) k.

(** The scripts with the interrupted-call answers taken out. *)
Definition statx_uninterrupted (k : list (response statx))
    : list (response statx) :=
  List.filter (fun r => negb (statx_interrupted r)) k.
Definition uninterrupted (k : list xstep) : list xstep :=
  List.filter (fun s => negb (interrupted s)) k.

(** The calls statx0 and statxfd0 hand to RESTARTABLE. *)
Definition statx0_call (path : string) (follow_links : Z) : syscall :=
  statx_wrapper AT_FDCWD path AT_STATX_SYNC_AS_STAT STATX_ALL
    (if follow_links =? JNI_FALSE then NO_FOLLOW_SYMLINK else FOLLOW_SYMLINK).
Definition statxfd0_call (fd : Z) : syscall :=
  statx_wrapper fd "" (Z.lor AT_EMPTY_PATH AT_STATX_SYNC_AS_STAT) STATX_ALL
    FOLLOW_SYMLINK.

(** [st'] comes from [st] by adding events that all satisfy [P]. *)
Definition extends (P : event -> bool) (st st' : state) : Prop :=
  exists evs, trace st' = trace st ++ evs /\ forallb P evs = true.

(** The pending exception carries the interrupted-call error. *)
Definition surfaces_eintr (x : option jthrowable) : bool :=
  match x with
  | Some (UnixException e) => e =? EINTR
  | Some (IOExceptionWithLastError e _) => e =? EINTR
  | None => false
  end.

(** What a metadata query over answers [k] may do, by the capability and
    by the answer delivered to it: the attributes are written in the first
    case only. *)
Definition statx_query_effect (g : globals) (attrs : jobject)
    (k : list (response statx)) (st : state) (result : option Z * state)
    : Prop :=
  match my_statx_func g, statx_delivered k with
  | Resolved, Some (Success buf) =>
      fst result = Some 0
      /\ exists st1,
           snd result = copy_statx_attributes buf attrs st1
           /\ heap st1 = heap st
           /\ field_writes st1 = field_writes st
           /\ length (field_writes (snd result))
              = (length (field_writes st) + 16)%nat
  | Resolved, Some (Failure e) =>
      fst result = Some (Z.pos e)
      /\ heap (snd result) = heap st
      /\ field_writes (snd result) = field_writes st
  | Resolved, None =>
      fst result = None
      /\ heap (snd result) = heap st
      /\ field_writes (snd result) = field_writes st
  | NULL, _ =>
      fst result = Some 0 /\ snd result = st
  end.

(** Two states the caller cannot tell apart: same heap, same pending
    exception. *)
Definition same_view (st st' : state) : Prop :=
  heap st = heap st' /\ pending st = pending st'.

(** The body statx0 and statxfd0 share once statx is known to be
    resolved: the restarted call [c], then lines 373-378 (399-404). *)
Definition statx_query_body (c : syscall) (attrs : jobject)
    (k : list (response statx)) (st : state) : option Z * state :=
  match RESTARTABLE statx_ret statx_err c k st with
  | (None, st1) => (None, st1)
  | (Some (r, _), st1) =>
      if statx_ret r =? 0
      then (Some 0, copy_statx_attributes
                      (statx_filled r statx_buf_unset) attrs st1)
      else (Some (errno st1), st1)
  end.

(** What the caller of a native method gets to see. *)
Definition outcome {A} (r : option A * state)
    : option A * gmap jobject (gmap jfieldID Z) * option jthrowable :=
  (fst r, heap (snd r), pending (snd r)).

(** A failure of copy_file_range after which sendfile is tried: the
    cases of the switch at lines 447-449. *)
Definition abandons (s : xstep) : bool :=
  match answer s with
  | Failure e =>
      (Z.pos e =? EINVAL) || (Z.pos e =? ENOSYS) || (Z.pos e =? EXDEV)
  | Success _ => false
  end.

(** The answers [kA] take the copy_file_range loop through chunks of
    positive length to a failure that abandons it, with no cancellation
    seen. *)
Fixpoint tier_A_abandoned (cancel : Z) (kA : list xstep) : bool :=
  match kA with
  | [] => false
  | [s] => abandons s && negb (observes_set cancel s)
  | s :: kA' => goes_on cancel s && tier_A_abandoned cancel kA'
  end.

(** The answers [kA] are those consumed before the first sendfile64 call:
    none when copy_file_range is missing. *)
Definition reaches_tier_B (g : globals) (cancel : Z) (kA : list xstep) : bool :=
  match my_copy_file_range_func g with
  | NULL => match kA with [] => true | _ => false end
  | Resolved => tier_A_abandoned cancel kA
  end.

(** After answer [s] the copy_file_range loop (the sendfile loop) goes on
    to read the cancellation word, unless the call is restarted. *)
Definition polled_in_A (s : xstep) : bool :=
  match answer s with Success _ => true | Failure _ => abandons s end.
Definition polled_in_B (s : xstep) : bool :=
  match answer s with Success _ => true | Failure _ => false end.

(** The events of [turn] and [turns]. *)
Definition turn_events (c : syscall) (cancel : Z) (s : xstep) : list event :=
  Syscall c (xfer_ret s)
  :: (if interrupted s then []
      else if negb (cancel =? 0) then [ReadCancel (cancel_word s)] else []).
Definition turns_events (c : syscall) (cancel : Z) (pre : list xstep)
    : list event :=
  concat (map (turn_events c cancel) pre).

(** The events a chunk loop issuing call [c] may add to the trace. *)
Definition chunk_event (c : syscall) (ev : event) : bool :=
  match ev with
  | Syscall c' _ => bool_decide (c' = c)
  | ReadCancel _ => true
  | JniSetField _ _ _ => false
  end.

(** Linux: the most one read, write, sendfile or copy_file_range call
    transfers is MAX_RW_COUNT, INT_MAX rounded down to a page boundary. *)
Definition MAX_RW_COUNT : Z := Z.land (2 ^ 31 - 1) (Z.lnot (4096 - 1)).

(** ** Sample values *)

Definition env_ok : JNIEnv := {| can_allocate := true |}.
Definition caps_all : globals :=
  {| my_statx_func := Resolved; my_copy_file_range_func := Resolved |}.
Definition caps_none : globals :=
  {| my_statx_func := NULL; my_copy_file_range_func := NULL |}.

Definition chunk (n : N) (word : Z) : xstep :=
  {| answer := Success n; cancel_word := word |}.
Definition fails (e : positive) (word : Z) : xstep :=
  {| answer := Failure e; cancel_word := word |}.

Definition sample_time : statx_timestamp :=
  {| tv_sec := 1700000000; tv_nsec := 123456789 |}.
Definition sample_statx : statx :=
  {| stx_mask := 0xfff; stx_nlink := 1; stx_uid := 1000; stx_gid := 1000;
     stx_mode := 0x81a4; stx_ino := 42; stx_size := 5;
     stx_atime := sample_time; stx_btime := sample_time;
     stx_ctime := sample_time; stx_mtime := sample_time;
     stx_rdev_major := 0; stx_rdev_minor := 0;
     stx_dev_major := 8; stx_dev_minor := 1 |}.

(** A heap with one attributes object, all fields unset. *)
Definition sample_attrs : jobject := 1%positive.
Definition state1 : state :=
  {| errno := 0; heap := {[ sample_attrs := ∅ ]}; pending := None;
     trace := [] |}.

(** * The rest of the file: initialisation, the mount table, run shapes *)

(** ** Initialisation *)

(** What init finds around it: the classes and fields the JVM can look
    up, and the symbols the dynamic linker resolves. *)
Definition jclass := string.

Record runtime := {
  has_class : string -> bool;
  has_field : jclass -> string -> string -> bool;
  has_static_field : jclass -> string -> string -> bool;
  dlsym : string -> fnptr
}.

(** The JNI lookups: the class or field when the JVM has it, else NULL. *)
Definition FindClass (rt : runtime) (name : string) : option jclass :=
  if has_class rt name then Some name else None.
Definition GetFieldID (rt : runtime) (clazz : jclass) (name sig : string)
    : option jfieldID :=
  if has_field rt clazz name sig then Some name else None.
Definition GetStaticFieldID (rt : runtime) (clazz : jclass) (name sig : string)
    : option jfieldID :=
  if has_static_field rt clazz name sig then Some name else None.

(** The statics of the file, lines 131-168: the jfieldID variables by
    their C names (a variable that is NULL has no entry), the two function
    pointers, and beside them the Java static
    LinuxNativeDispatcher.supports_statx that init sets. *)
Record statics := {
  fieldIDs : gmap string jfieldID;
  table : globals;
  supports_statx : bool
}.

Definition statics0 : statics :=
  {| fieldIDs := ∅;
     table := {| my_statx_func := NULL; my_copy_file_range_func := NULL |};
     supports_statx := false |}.

(** [var = v;] for a jfieldID static. *)
Definition assign (var : string) (v : option jfieldID) (s : statics) : statics :=
  {| fieldIDs := match v with
                 | Some id => <[var := id]> (fieldIDs s)
                 | None => delete var (fieldIDs s)
                 end;
     table := table s;
     supports_statx := supports_statx s |}.

Definition set_my_statx_func (f : fnptr) (s : statics) : statics :=
  {| fieldIDs := fieldIDs s;
     table := {| my_statx_func := f;
                 my_copy_file_range_func := my_copy_file_range_func (table s) |};
     supports_statx := supports_statx s |}.
Definition set_my_copy_file_range_func (f : fnptr) (s : statics) : statics :=
  {| fieldIDs := fieldIDs s;
     table := {| my_statx_func := my_statx_func (table s);
                 my_copy_file_range_func := f |};
     supports_statx := supports_statx s |}.

(** SetStaticBooleanField on the supports_statx field. *)
Definition SetStaticBooleanField (b : bool) (s : statics) : statics :=
  {| fieldIDs := fieldIDs s; table := table s; supports_statx := b |}.

(** CHECK_NULL of jni_util.h: [if (x == NULL) return;], the statics
    staying as they are at that point. *)
Notation "'CHECK_NULL' x 'is' e 'or' s ;; k" :=
  (match e with Some x => k | None => s end)
  (at level 10, x name, e at level 100, s at level 9, k at level 200,
   only parsing).

(** Lines 184-251. *)
Definition init (rt : runtime) (s : statics) : statics :=
  CHECK_NULL clazz is FindClass rt "sun/nio/fs/UnixMountEntry" or s ;;
  let entry_name := GetFieldID rt clazz "name" "[B" in
  let s := assign "entry_name" entry_name s in
  CHECK_NULL _x is entry_name or s ;;
  let entry_dir := GetFieldID rt clazz "dir" "[B" in
  let s := assign "entry_dir" entry_dir s in
  CHECK_NULL _x is entry_dir or s ;;
  let entry_fstype := GetFieldID rt clazz "fstype" "[B" in
  let s := assign "entry_fstype" entry_fstype s in
  CHECK_NULL _x is entry_fstype or s ;;
  let entry_options := GetFieldID rt clazz "opts" "[B" in
  let s := assign "entry_options" entry_options s in
  CHECK_NULL _x is entry_options or s ;;
  CHECK_NULL dispatch_class is
    FindClass rt "sun/nio/fs/LinuxNativeDispatcher" or s ;;
  let dp_statx_supported :=
    GetStaticFieldID rt dispatch_class "supports_statx" "Z" in
  let s := assign "dp_statx_supported" dp_statx_supported s in
  CHECK_NULL _x is dp_statx_supported or s ;;
  let s := set_my_statx_func (dlsym rt "statx") s in
  let rest (s : statics) :=
    set_my_copy_file_range_func (dlsym rt "copy_file_range") s in
  match my_statx_func (table s) with
  | Resolved =>
      let s := SetStaticBooleanField true s in
      CHECK_NULL attr_class is
        FindClass rt "sun/nio/fs/LinuxFileAttributes" or s ;;
      let v := GetFieldID rt attr_class "stx_birthtime_nsec" "J" in
      let s := assign "attrs_stx_btime_nsec" v s in
      CHECK_NULL _x is v or s ;;
      CHECK_NULL u_attr_class is
        FindClass rt "sun/nio/fs/UnixFileAttributes" or s ;;
      let v := GetFieldID rt u_attr_class "st_mode" "I" in
      let s := assign "attrs_st_mode" v s in
      CHECK_NULL _x is v or s ;;
      let v := GetFieldID rt u_attr_class "st_ino" "J" in
      let s := assign "attrs_st_ino" v s in
      CHECK_NULL _x is v or s ;;
      let v := GetFieldID rt u_attr_class "st_dev" "J" in
      let s := assign "attrs_st_dev" v s in
      CHECK_NULL _x is v or s ;;
      let v := GetFieldID rt u_attr_class "st_rdev" "J" in
      let s := assign "attrs_st_rdev" v s in
      CHECK_NULL _x is v or s ;;
      let v := GetFieldID rt u_attr_class "st_nlink" "I" in
      let s := assign "attrs_st_nlink" v s in
      CHECK_NULL _x is v or s ;;
      let v := GetFieldID rt u_attr_class "st_uid" "I" in
      let s := assign "attrs_st_uid" v s in
      CHECK_NULL _x is v or s ;;
      let v := GetFieldID rt u_attr_class "st_gid" "I" in
      let s := assign "attrs_st_gid" v s in
      CHECK_NULL _x is v or s ;;
      let v := GetFieldID rt u_attr_class "st_size" "J" in
      let s := assign "attrs_st_size" v s in
      CHECK_NULL _x is v or s ;;
      let v := GetFieldID rt u_attr_class "st_atime_sec" "J" in
      let s := assign "attrs_st_atime_sec" v s in
      CHECK_NULL _x is v or s ;;
      let v := GetFieldID rt u_attr_class "st_atime_nsec" "J" in
      let s := assign "attrs_st_atime_nsec" v s in
      CHECK_NULL _x is v or s ;;
      let v := GetFieldID rt u_attr_class "st_mtime_sec" "J" in
      let s := assign "attrs_st_mtime_sec" v s in
      CHECK_NULL _x is v or s ;;
      let v := GetFieldID rt u_attr_class "st_mtime_nsec" "J" in
      let s := assign "attrs_st_mtime_nsec" v s in
      CHECK_NULL _x is v or s ;;
      let v := GetFieldID rt u_attr_class "st_ctime_sec" "J" in
      let s := assign "attrs_st_ctime_sec" v s in
      CHECK_NULL _x is v or s ;;
      let v := GetFieldID rt u_attr_class "st_ctime_nsec" "J" in
      let s := assign "attrs_st_ctime_nsec" v s in
      CHECK_NULL _x is v or s ;;
      let v := GetFieldID rt u_attr_class "st_birthtime_sec" "J" in
      let s := assign "attrs_st_birthtime_sec" v s in
      CHECK_NULL _x is v or s ;;
      rest s
  | NULL => rest s
  end.


(** The lookups init makes before it probes for statx, and those it makes
    once statx is found. *)
Definition mount_lookups_ok (rt : runtime) : bool :=
  has_class rt "sun/nio/fs/UnixMountEntry"
  && has_field rt "sun/nio/fs/UnixMountEntry" "name" "[B"
  && has_field rt "sun/nio/fs/UnixMountEntry" "dir" "[B"
  && has_field rt "sun/nio/fs/UnixMountEntry" "fstype" "[B"
  && has_field rt "sun/nio/fs/UnixMountEntry" "opts" "[B"
  && has_class rt "sun/nio/fs/LinuxNativeDispatcher"
  && has_static_field rt "sun/nio/fs/LinuxNativeDispatcher" "supports_statx" "Z".

Definition attrs_lookups_ok (rt : runtime) : bool :=
  has_class rt "sun/nio/fs/LinuxFileAttributes"
  && has_field rt "sun/nio/fs/LinuxFileAttributes" "stx_birthtime_nsec" "J"
  && has_class rt "sun/nio/fs/UnixFileAttributes"
  && has_field rt "sun/nio/fs/UnixFileAttributes" "st_mode" "I"
  && has_field rt "sun/nio/fs/UnixFileAttributes" "st_ino" "J"
  && has_field rt "sun/nio/fs/UnixFileAttributes" "st_dev" "J"
  && has_field rt "sun/nio/fs/UnixFileAttributes" "st_rdev" "J"
  && has_field rt "sun/nio/fs/UnixFileAttributes" "st_nlink" "I"
  && has_field rt "sun/nio/fs/UnixFileAttributes" "st_uid" "I"
  && has_field rt "sun/nio/fs/UnixFileAttributes" "st_gid" "I"
  && has_field rt "sun/nio/fs/UnixFileAttributes" "st_size" "J"
  && has_field rt "sun/nio/fs/UnixFileAttributes" "st_atime_sec" "J"
  && has_field rt "sun/nio/fs/UnixFileAttributes" "st_atime_nsec" "J"
  && has_field rt "sun/nio/fs/UnixFileAttributes" "st_mtime_sec" "J"
  && has_field rt "sun/nio/fs/UnixFileAttributes" "st_mtime_nsec" "J"
  && has_field rt "sun/nio/fs/UnixFileAttributes" "st_ctime_sec" "J"
  && has_field rt "sun/nio/fs/UnixFileAttributes" "st_ctime_nsec" "J"
  && has_field rt "sun/nio/fs/UnixFileAttributes" "st_birthtime_sec" "J".

(** init runs to its last line. *)
Definition init_completes (rt : runtime) : bool :=
  mount_lookups_ok rt
  && match dlsym rt "statx" with
     | Resolved => attrs_lookups_ok rt
     | NULL => true
     end.

(** The attribute statics with the field ids copy_statx_attributes
    writes through. *)
Definition attrs_statics : list (string * jfieldID) :=
  [("attrs_stx_btime_nsec", attrs_stx_btime_nsec);
   ("attrs_st_mode", attrs_st_mode); ("attrs_st_ino", attrs_st_ino);
   ("attrs_st_dev", attrs_st_dev); ("attrs_st_rdev", attrs_st_rdev);
   ("attrs_st_nlink", attrs_st_nlink); ("attrs_st_uid", attrs_st_uid);
   ("attrs_st_gid", attrs_st_gid); ("attrs_st_size", attrs_st_size);
   ("attrs_st_atime_sec", attrs_st_atime_sec);
   ("attrs_st_atime_nsec", attrs_st_atime_nsec);
   ("attrs_st_mtime_sec", attrs_st_mtime_sec);
   ("attrs_st_mtime_nsec", attrs_st_mtime_nsec);
   ("attrs_st_ctime_sec", attrs_st_ctime_sec);
   ("attrs_st_ctime_nsec", attrs_st_ctime_nsec);
   ("attrs_st_birthtime_sec", attrs_st_birthtime_sec)].

(** A component of the statics is kept by [f], or set by [f] to a value
    that does not depend on the statics before. *)
Definition kept_or_set {A} (c : statics -> A) (f : statics -> statics) : Prop :=
  (forall s, c (f s) = c s) \/ (forall s1 s2, c (f s1) = c (f s2)).

(** A run time in which every lookup succeeds and both symbols resolve,
    and one that lacks the field st_gid and the symbol copy_file_range
    apart. *)
Definition full_runtime : runtime :=
  {| has_class := fun _ => true;
     has_field := fun _ _ _ => true;
     has_static_field := fun _ _ _ => true;
     dlsym := fun _ => Resolved |}.
Definition runtime_without_st_gid : runtime :=
  {| has_class := fun _ => true;
     has_field := fun _ name _ => negb (String.eqb name "st_gid");
     has_static_field := fun _ _ _ => true;
     dlsym := fun _ => Resolved |}.

(** ** The mount table *)





(** A C string: its bytes before the terminating NUL. *)
Definition cstring := list Byte.byte.
Definition strlen (s : cstring) : Z := Z.of_nat (length s).

(** [struct mntent], the members getmntent0 reads. *)
Record mntent := {
  mnt_fsname : cstring;
  mnt_dir : cstring;
  mnt_type : cstring;
  mnt_opts : cstring
}.

(** The field ids of UnixMountEntry, as init looks them up. *)
Definition entry_name : jfieldID := "name".
Definition entry_dir : jfieldID := "dir".
Definition entry_fstype : jfieldID := "fstype".
Definition entry_options : jfieldID := "opts".

(** A UnixMountEntry object: its byte-array fields, each array fresh and
    held by this field alone, so kept by content. *)
Abbreviation mount_entry := (gmap jfieldID (list Byte.byte)).

(** NewByteArray: a zeroed array of [len] bytes, or NULL when the length
    is negative or the JVM has no room ([room] false). *)
Definition NewByteArray (room : bool) (len : Z) : option (list Byte.byte) :=
  if room && (0 <=? len) then Some (replicate (Z.to_nat len) Byte.x00) else None.

(** SetByteArrayRegion(array, start, len, buf), for a region inside the
    array. *)
Definition SetByteArrayRegion (array : list Byte.byte) (start len : Z)
    (buf : cstring) : list Byte.byte :=
  take (Z.to_nat start) array ++ take (Z.to_nat len) buf
  ++ drop (Z.to_nat (start + len)) array.

Definition SetObjectField (entry : mount_entry) (f : jfieldID)
    (bytes : list Byte.byte) : mount_entry :=
  <[f := bytes]> entry.

(** getmntent_r on a stream of which [stream] lists the entries still to
    come: the next entry and the rest, or NULL at the end. *)
Definition getmntent_r (stream : list mntent) : option mntent * list mntent :=
  match stream with
  | [] => (None, [])
  | m :: rest => (Some m, rest)
  end.

(** Lines 270-322.  [room i] tells whether the JVM has room for the
    i-th array the call asks for.  The result is the returned jint, the
    stream after the call and the entry object after the call. *)
Definition getmntent0 (stream : list mntent) (room : nat -> bool)
    (entry : mount_entry) : Z * list mntent * mount_entry :=
  let (m, stream) := getmntent_r stream in
  match m with
  | None => (-1, stream, entry)
  | Some m =>
      let name := mnt_fsname m in
      let dir := mnt_dir m in
      let fstype := mnt_type m in
      let options := mnt_opts m in
      let len := to_jint (strlen name) in
      match NewByteArray (room 0%nat) len with
      | None => (-1, stream, entry)
      | Some bytes =>
      let bytes := SetByteArrayRegion bytes 0 len name in
      let entry := SetObjectField entry entry_name bytes in
      let len := to_jint (strlen dir) in
      match NewByteArray (room 1%nat) len with
      | None => (-1, stream, entry)
      | Some bytes =>
      let bytes := SetByteArrayRegion bytes 0 len dir in
      let entry := SetObjectField entry entry_dir bytes in
      let len := to_jint (strlen fstype) in
      match NewByteArray (room 2%nat) len with
      | None => (-1, stream, entry)
      | Some bytes =>
      let bytes := SetByteArrayRegion bytes 0 len fstype in
      let entry := SetObjectField entry entry_fstype bytes in
      let len := to_jint (strlen options) in
      match NewByteArray (room 3%nat) len with
      | None => (-1, stream, entry)
      | Some bytes =>
      let bytes := SetByteArrayRegion bytes 0 len options in
      let entry := SetObjectField entry entry_options bytes in
      (0, stream, entry)
      end end end end
  end.

(** The strings of an entry are short enough for a jsize. *)
Definition fits_jsize (m : mntent) : Prop :=
  strlen (mnt_fsname m) < 2 ^ 31 /\ strlen (mnt_dir m) < 2 ^ 31
  /\ strlen (mnt_type m) < 2 ^ 31 /\ strlen (mnt_opts m) < 2 ^ 31.

(** The entry fields a call writes when the first array it cannot get is
    the [i]-th: those of the strings before. *)
Definition written_before (i : nat) (m : mntent) (entry : mount_entry)
    : mount_entry :=
  let fields :=
    [(entry_name, mnt_fsname m); (entry_dir, mnt_dir m);
     (entry_fstype, mnt_type m); (entry_options, mnt_opts m)] in
  foldl (fun e fb => <[fb.1 := fb.2]> e) entry (take i fields).

Definition sample_mntent : mntent :=
  {| mnt_fsname := [Byte.x2f; Byte.x64];
     mnt_dir := [Byte.x2f];
     mnt_type := [Byte.x65; Byte.x78; Byte.x74; Byte.x34];
     mnt_opts := [Byte.x72; Byte.x77] |}.

(** The mount-entry statics with the field ids init looks up for them. *)
Definition mount_statics : list (string * jfieldID) :=
  [("entry_name", entry_name); ("entry_dir", entry_dir);
   ("entry_fstype", entry_fstype); ("entry_options", entry_options);
   ("dp_statx_supported", "supports_statx")].

Definition assign_all (l : list (string * jfieldID)) (s : statics) : statics :=
  foldl (fun s p => assign p.1 (Some p.2) s) s l.

(** The statics after an init that runs to its last line. *)
Definition init_complete (rt : runtime) (s : statics) : statics :=
  let s := set_my_statx_func (dlsym rt "statx") (assign_all mount_statics s) in
  let s :=
    match dlsym rt "statx" with
    | Resolved => assign_all attrs_statics (SetStaticBooleanField true s)
    | NULL => s
    end in
  set_my_copy_file_range_func (dlsym rt "copy_file_range") s.

(** The first of the four arrays of a getmntent0 call that the JVM has
    no room for. *)
Definition first_refused (room : nat -> bool) : option nat :=
  List.find (fun i => negb (room i)) [0; 1; 2; 3]%nat.

(** The return values of the kernel calls traced so far, and the events
    that are no read of the cancellation word. *)
Definition syscall_rets (evs : list event) : list Z :=
  omap (fun ev => match ev with Syscall _ r => Some r | _ => None end) evs.
Definition is_poll (ev : event) : bool :=
  match ev with ReadCancel _ => true | _ => false end.
Definition not_a_poll (ev : event) : bool := negb (is_poll ev).



(** The ways a run of directCopy0 over the answers [k] can end, each with
    its result and the state it leaves: in the copy_file_range loop or,
    once the answers [kA] have taken the run to sendfile64, in the
    sendfile loop. *)
Inductive copy_run (env : JNIEnv) (g : globals) (dst src cancel : Z)
    (k : list xstep) (st : state) : option ios * state -> Prop :=
  | A_starved :
      my_copy_file_range_func g = Resolved ->
      forallb (goes_on cancel) k = true ->
      copy_run env g dst src cancel k st
        (None, turns (cfr_call dst src cancel) cancel k st)
  | A_done pre s rest :
      my_copy_file_range_func g = Resolved ->
      k = pre ++ s :: rest ->
      forallb (goes_on cancel) pre = true ->
      answer s = Success 0%N ->
      observes_set cancel s = false ->
      copy_run env g dst src cancel k st
        (Some OK, turns (cfr_call dst src cancel) cancel (pre ++ [s]) st)
  | A_cancelled pre s rest :
      my_copy_file_range_func g = Resolved ->
      k = pre ++ s :: rest ->
      forallb (goes_on cancel) pre = true ->
      polled_in_A s = true ->
      observes_set cancel s = true ->
      copy_run env g dst src cancel k st
        (Some IOS_THROWN,
         throwUnixException env ECANCELED
           (turns (cfr_call dst src cancel) cancel (pre ++ [s]) st))
  | A_failed pre s rest e :
      my_copy_file_range_func g = Resolved ->
      k = pre ++ s :: rest ->
      forallb (goes_on cancel) pre = true ->
      answer s = Failure e ->
      Z.pos e <> EINTR ->
      abandons s = false ->
      copy_run env g dst src cancel k st
        (Some IOS_THROWN,
         JNU_ThrowIOExceptionWithLastError "Copy failed"
           (xfer_call (cfr_call dst src cancel) s
              (turns (cfr_call dst src cancel) cancel pre st)))
  | B_starved kA kB :
      k = kA ++ kB ->
      reaches_tier_B g cancel kA = true ->
      forallb (goes_on cancel) kB = true ->
      copy_run env g dst src cancel k st
        (None,
         turns (sendfile_call dst src cancel) cancel kB
           (turns (cfr_call dst src cancel) cancel kA st))
  | B_done kA pre s rest :
      k = kA ++ pre ++ s :: rest ->
      reaches_tier_B g cancel kA = true ->
      forallb (goes_on cancel) pre = true ->
      answer s = Success 0%N ->
      observes_set cancel s = false ->
      copy_run env g dst src cancel k st
        (Some OK,
         turns (sendfile_call dst src cancel) cancel (pre ++ [s])
           (turns (cfr_call dst src cancel) cancel kA st))
  | B_cancelled kA pre s rest :
      k = kA ++ pre ++ s :: rest ->
      reaches_tier_B g cancel kA = true ->
      forallb (goes_on cancel) pre = true ->
      polled_in_B s = true ->
      observes_set cancel s = true ->
      copy_run env g dst src cancel k st
        (Some IOS_THROWN,
         throwUnixException env ECANCELED
           (turns (sendfile_call dst src cancel) cancel (pre ++ [s])
              (turns (cfr_call dst src cancel) cancel kA st)))
  | B_unavailable kA pre s rest e :
      k = kA ++ pre ++ s :: rest ->
      reaches_tier_B g cancel kA = true ->
      forallb (goes_on cancel) pre = true ->
      answer s = Failure e ->
      Z.pos e = EAGAIN ->
      copy_run env g dst src cancel k st
        (Some IOS_UNAVAILABLE,
         xfer_call (sendfile_call dst src cancel) s
           (turns (sendfile_call dst src cancel) cancel pre
              (turns (cfr_call dst src cancel) cancel kA st)))
  | B_unsupported kA pre s rest e :
      k = kA ++ pre ++ s :: rest ->
      reaches_tier_B g cancel kA = true ->
      forallb (goes_on cancel) pre = true ->
      answer s = Failure e ->
      Z.pos e = EINVAL \/ Z.pos e = ENOSYS ->
      copy_run env g dst src cancel k st
        (Some IOS_UNSUPPORTED_CASE,
         xfer_call (sendfile_call dst src cancel) s
           (turns (sendfile_call dst src cancel) cancel pre
              (turns (cfr_call dst src cancel) cancel kA st)))
  | B_failed kA pre s rest e :
      k = kA ++ pre ++ s :: rest ->
      reaches_tier_B g cancel kA = true ->
      forallb (goes_on cancel) pre = true ->
      answer s = Failure e ->
      Z.pos e <> EINTR -> Z.pos e <> EAGAIN ->
      Z.pos e <> EINVAL -> Z.pos e <> ENOSYS ->
      copy_run env g dst src cancel k st
        (Some IOS_THROWN,
         throwUnixException env (Z.pos e)
           (xfer_call (sendfile_call dst src cancel) s
              (turns (sendfile_call dst src cancel) cancel pre
                 (turns (cfr_call dst src cancel) cancel kA st)))).

(** * Proofs *)

(** ** State bookkeeping *)

Lemma trace_after_call c ret err st :
  trace (after_call c ret err st) = trace st ++ [Syscall c ret].
Proof. unfold after_call; destruct err; reflexivity. Qed.

Lemma heap_after_call c ret err st : heap (after_call c ret err st) = heap st.
Proof. unfold after_call; destruct err; reflexivity. Qed.

Lemma pending_after_call c ret err st :
  pending (after_call c ret err st) = pending st.
Proof. unfold after_call; destruct err; reflexivity. Qed.

Lemma errno_after_failure c ret e st :
  errno (after_call c ret (Some e) st) = Z.pos e.
Proof. reflexivity. Qed.

Lemma trace_throwUnixException env e st :
  trace (throwUnixException env e st) = trace st.
Proof.
  unfold throwUnixException, JNU_NewObjectByName.
  destruct (can_allocate env); reflexivity.
Qed.

Lemma heap_throwUnixException env e st :
  heap (throwUnixException env e st) = heap st.
Proof.
  unfold throwUnixException, JNU_NewObjectByName.
  destruct (can_allocate env); reflexivity.
Qed.

Lemma pending_throwUnixException env e st :
  pending (throwUnixException env e st) =
  if can_allocate env then Some (UnixException e) else pending st.
Proof.
  unfold throwUnixException, JNU_NewObjectByName.
  destruct (can_allocate env); reflexivity.
Qed.

Lemma poll_cancel_fst cancel s st :
  fst (poll_cancel cancel s st) = observes_set cancel s.
Proof. unfold poll_cancel, observes_set. destruct (cancel =? 0); reflexivity. Qed.

Lemma poll_cancel_eq cancel s st :
  poll_cancel cancel s st = (observes_set cancel s, snd (poll_cancel cancel s st)).
Proof. unfold poll_cancel, observes_set. destruct (cancel =? 0); reflexivity. Qed.

Lemma heap_poll_cancel cancel s st : heap (snd (poll_cancel cancel s st)) = heap st.
Proof. unfold poll_cancel. destruct (cancel =? 0); reflexivity. Qed.

Lemma pending_poll_cancel cancel s st :
  pending (snd (poll_cancel cancel s st)) = pending st.
Proof. unfold poll_cancel. destruct (cancel =? 0); reflexivity. Qed.

(** ** The restart loop *)

Section RestartableFacts.
Context {E : Type} (ret : E -> Z) (err : E -> option positive).
(** The kernel's convention: -1 is returned exactly with an error. *)
Hypothesis ret_err : forall r, ret r = -1 <-> is_Some (err r).

Lemma RESTARTABLE_cons cmd r k st :
  RESTARTABLE ret err cmd (r :: k) st =
  if eintr err r
  then RESTARTABLE ret err cmd k (after_call cmd (ret r) (err r) st)
  else (Some (r, k), after_call cmd (ret r) (err r) st).
Proof.
  cbn [RESTARTABLE]. unfold eintr.
  destruct (err r) as [e|] eqn:He.
  - assert (Hr : ret r = -1) by (apply ret_err; rewrite He; eauto).
    rewrite Hr, errno_after_failure. reflexivity.
  - assert (Hr : ret r <> -1).
    { intros Hr. apply ret_err in Hr. rewrite He in Hr. by destruct Hr. }
    apply Z.eqb_neq in Hr. rewrite Hr. reflexivity.
Qed.

Lemma RESTARTABLE_app cmd pre k st :
  forallb (eintr err) pre = true ->
  RESTARTABLE ret err cmd (pre ++ k) st =
  RESTARTABLE ret err cmd k (retries ret err cmd pre st).
Proof.
  revert st. induction pre as [|r pre IH]; intros st Hpre; [reflexivity|].
  cbn [forallb] in Hpre. apply andb_prop in Hpre as [Hr Hpre].
  rewrite <- app_comm_cons, RESTARTABLE_cons, Hr. cbn [retries fold_left].
  apply IH, Hpre.
Qed.

Lemma RESTARTABLE_Some cmd k st r k' st1 :
  RESTARTABLE ret err cmd k st = (Some (r, k'), st1) ->
  exists pre, k = pre ++ r :: k' /\ forallb (eintr err) pre = true
    /\ eintr err r = false
    /\ st1 = after_call cmd (ret r) (err r) (retries ret err cmd pre st).
Proof.
  revert st. induction k as [|a k IH]; intros st H; [discriminate|].
  rewrite RESTARTABLE_cons in H. destruct (eintr err a) eqn:Ha.
  - apply IH in H as (pre & -> & Hpre & Hr & ->).
    exists (a :: pre). cbn [forallb]. rewrite Ha, Hpre. auto.
  - inversion H; subst. exists []. auto.
Qed.

Lemma RESTARTABLE_None cmd k st st1 :
  RESTARTABLE ret err cmd k st = (None, st1) ->
  forallb (eintr err) k = true /\ st1 = retries ret err cmd k st.
Proof.
  revert st. induction k as [|a k IH]; intros st H.
  - inversion H. auto.
  - rewrite RESTARTABLE_cons in H. destruct (eintr err a) eqn:Ha; [|discriminate].
    apply IH in H as [Hk ->]. cbn [forallb]. rewrite Ha, Hk. auto.
Qed.

Lemma RESTARTABLE_shorter cmd k st r k' st1 :
  RESTARTABLE ret err cmd k st = (Some (r, k'), st1) ->
  (length k' < length k)%nat.
Proof.
  intros H. apply RESTARTABLE_Some in H as (pre & -> & _).
  rewrite length_app. cbn [length]. lia.
Qed.
End RestartableFacts.

Lemma statx_ret_err r : statx_ret r = -1 <-> is_Some (statx_err r).
Proof.
  destruct r; cbn; split; intros H; try discriminate; eauto.
  by destruct H.
Qed.

Lemma xfer_ret_err s : xfer_ret s = -1 <-> is_Some (xfer_err s).
Proof.
  unfold xfer_ret, xfer_err. destruct (answer s); split; intros H; eauto.
  - lia.
  - by destruct H.
Qed.

(** ** The chunk loops, answer by answer *)

Ltac fuel_irrelevant IHn HR :=
  match goal with
  | |- context [RESTARTABLE xfer_ret xfer_err ?c ?k ?st] =>
      destruct (RESTARTABLE xfer_ret xfer_err c k st) as [[[r k']|] st1] eqn:HR;
      [|reflexivity];
      apply (RESTARTABLE_shorter _ _ xfer_ret_err) in HR;
      repeat match goal with
        | |- context [if ?b then _ else _] => destruct b; try reflexivity
        | |- context [let (_, _) := ?p in _] => destruct p
        end;
      apply IHn; lia
  end.

Lemma copy_file_range_loop_fuel env dst src cancel count n :
  forall m k st, (length k <= n)%nat -> (length k <= m)%nat ->
  copy_file_range_loop n env dst src cancel count k st =
  copy_file_range_loop m env dst src cancel count k st.
Proof.
  induction n as [|n IHn]; intros m k st Hn Hm.
  - destruct k; [|cbn in Hn; lia]. destruct m; reflexivity.
  - destruct m as [|m].
    + destruct k; [|cbn in Hm; lia]. reflexivity.
    + cbn [copy_file_range_loop]. fuel_irrelevant IHn HR.
Qed.

Lemma sendfile_loop_fuel env dst src cancel count n :
  forall m k st, (length k <= n)%nat -> (length k <= m)%nat ->
  sendfile_loop n env dst src cancel count k st =
  sendfile_loop m env dst src cancel count k st.
Proof.
  induction n as [|n IHn]; intros m k st Hn Hm.
  - destruct k; [|cbn in Hn; lia]. destruct m; reflexivity.
  - destruct m as [|m].
    + destruct k; [|cbn in Hm; lia]. reflexivity.
    + cbn [sendfile_loop]. fuel_irrelevant IHn HR.
Qed.

(** With fuel the length of the script, the loops obey the equations of
    a recursion on the script itself. *)
Lemma copy_file_range_loop_cons env dst src cancel count s k st :
  copy_file_range_loop (length (s :: k)) env dst src cancel count (s :: k) st =
  let st1 := xfer_call (sys_copy_file_range src None dst None count 0) s st in
  if interrupted s
  then copy_file_range_loop (length k) env dst src cancel count k st1
  else
    if (xfer_ret s <? 0)
       && negb ((errno st1 =? EINVAL) || (errno st1 =? ENOSYS)
                || (errno st1 =? EXDEV))
    then (Return IOS_THROWN, JNU_ThrowIOExceptionWithLastError "Copy failed" st1)
    else
      let st2 := snd (poll_cancel cancel s st1) in
      if observes_set cancel s
      then (Return IOS_THROWN, throwUnixException env ECANCELED st2)
      else if xfer_ret s >? 0
           then copy_file_range_loop (length k) env dst src cancel count k st2
           else (Leave (xfer_ret s) k, st2).
Proof.
  cbn zeta. cbn [length copy_file_range_loop].
  rewrite (RESTARTABLE_cons _ _ xfer_ret_err). fold interrupted.
  destruct (interrupted s).
  - rewrite (copy_file_range_loop_fuel _ _ _ _ _ (length k) (S (length k)));
      [reflexivity | lia | lia].
  - rewrite poll_cancel_eq. reflexivity.
Qed.

Lemma sendfile_loop_cons env dst src cancel count s k st :
  sendfile_loop (length (s :: k)) env dst src cancel count (s :: k) st =
  let st1 := xfer_call (sys_sendfile64 dst src None count) s st in
  if interrupted s
  then sendfile_loop (length k) env dst src cancel count k st1
  else
    if xfer_ret s <? 0
    then
      if errno st1 =? EAGAIN
      then (Return IOS_UNAVAILABLE, st1)
      else if (errno st1 =? EINVAL) || (errno st1 =? ENOSYS)
           then (Return IOS_UNSUPPORTED_CASE, st1)
           else (Return IOS_THROWN, throwUnixException env (errno st1) st1)
    else
      let st2 := snd (poll_cancel cancel s st1) in
      if observes_set cancel s
      then (Return IOS_THROWN, throwUnixException env ECANCELED st2)
      else if xfer_ret s >? 0
           then sendfile_loop (length k) env dst src cancel count k st2
           else (Leave (xfer_ret s) k, st2).
Proof.
  cbn zeta. cbn [length sendfile_loop].
  rewrite (RESTARTABLE_cons _ _ xfer_ret_err). fold interrupted.
  destruct (interrupted s).
  - rewrite (sendfile_loop_fuel _ _ _ _ _ (length k) (S (length k)));
      [reflexivity | lia | lia].
  - rewrite poll_cancel_eq. reflexivity.
Qed.

(** ** Kinds of answers *)

Lemma interrupted_answer s :
  interrupted s = true <-> exists e, answer s = Failure e /\ Z.pos e = EINTR.
Proof.
  unfold interrupted, eintr, xfer_err. destruct (answer s) as [n|e].
  - split; [discriminate | intros (e & H & _); discriminate].
  - rewrite Z.eqb_eq. split; [eauto | intros (e' & [= ->] & H); exact H].
Qed.

Lemma interrupted_failure s e :
  answer s = Failure e -> interrupted s = (Z.pos e =? EINTR).
Proof. unfold interrupted, eintr, xfer_err. by intros ->. Qed.

Lemma interrupted_success s n : answer s = Success n -> interrupted s = false.
Proof. unfold interrupted, eintr, xfer_err. by intros ->. Qed.

Lemma xfer_ret_success s n : answer s = Success n -> xfer_ret s = Z.of_N n.
Proof. unfold xfer_ret. by intros ->. Qed.

Lemma xfer_ret_failure s e : answer s = Failure e -> xfer_ret s = -1.
Proof. unfold xfer_ret. by intros ->. Qed.

Lemma errno_xfer_call_failure c s e st :
  answer s = Failure e -> errno (xfer_call c s st) = Z.pos e.
Proof. unfold xfer_call, xfer_err. by intros ->. Qed.

Lemma goes_on_cases cancel s :
  goes_on cancel s = true ->
  interrupted s = true
  \/ (interrupted s = false /\ observes_set cancel s = false
      /\ exists n, answer s = Success n /\ 0 < Z.of_N n).
Proof.
  unfold goes_on. destruct (interrupted s) eqn:Hi; [auto|]. cbn [orb].
  intros H. apply andb_prop in H as [Hn Ho]. right.
  destruct (answer s) as [n|] eqn:Ha; [|discriminate].
  apply Z.ltb_lt in Hn. apply negb_true_iff in Ho. eauto.
Qed.

Lemma turn_interrupted c cancel st s :
  interrupted s = true -> turn c cancel st s = xfer_call c s st.
Proof. unfold turn. by intros ->. Qed.

Lemma turn_polled c cancel st s :
  interrupted s = false ->
  turn c cancel st s = snd (poll_cancel cancel s (xfer_call c s st)).
Proof. unfold turn. by intros ->. Qed.

Lemma turns_cons c cancel s pre st :
  turns c cancel (s :: pre) st = turns c cancel pre (turn c cancel st s).
Proof. reflexivity. Qed.

Lemma turns_app c cancel pre k st :
  turns c cancel (pre ++ k) st = turns c cancel k (turns c cancel pre st).
Proof. unfold turns. apply fold_left_app. Qed.

Lemma turns_snoc c cancel pre s st :
  turns c cancel (pre ++ [s]) st = turn c cancel (turns c cancel pre st) s.
Proof. rewrite turns_app. reflexivity. Qed.

(** ** Chunks that keep a loop turning *)

Lemma copy_file_range_loop_goes_on env dst src cancel count pre :
  forall k st, forallb (goes_on cancel) pre = true ->
  copy_file_range_loop (length (pre ++ k)) env dst src cancel count (pre ++ k) st =
  copy_file_range_loop (length k) env dst src cancel count k
    (turns (sys_copy_file_range src None dst None count 0) cancel pre st).
Proof.
  induction pre as [|s pre IH]; intros k st Hpre; [reflexivity|].
  cbn [forallb] in Hpre. apply andb_prop in Hpre as [Hs Hpre].
  rewrite <- app_comm_cons, copy_file_range_loop_cons. cbn zeta.
  rewrite turns_cons.
  apply goes_on_cases in Hs as [Hi|(Hi & Ho & n & Ha & Hn)].
  - rewrite Hi, (turn_interrupted _ _ _ _ Hi). apply IH, Hpre.
  - rewrite Hi, Ho, (turn_polled _ _ _ _ Hi), (xfer_ret_success _ _ Ha).
    assert (H0 : (Z.of_N n <? 0) = false) by (apply Z.ltb_ge; lia).
    assert (H1 : (Z.of_N n >? 0) = true) by (apply Z.gtb_lt; lia).
    rewrite H0, H1. cbn [andb]. apply IH, Hpre.
Qed.

Lemma sendfile_loop_goes_on env dst src cancel count pre :
  forall k st, forallb (goes_on cancel) pre = true ->
  sendfile_loop (length (pre ++ k)) env dst src cancel count (pre ++ k) st =
  sendfile_loop (length k) env dst src cancel count k
    (turns (sys_sendfile64 dst src None count) cancel pre st).
Proof.
  induction pre as [|s pre IH]; intros k st Hpre; [reflexivity|].
  cbn [forallb] in Hpre. apply andb_prop in Hpre as [Hs Hpre].
  rewrite <- app_comm_cons, sendfile_loop_cons. cbn zeta.
  rewrite turns_cons.
  apply goes_on_cases in Hs as [Hi|(Hi & Ho & n & Ha & Hn)].
  - rewrite Hi, (turn_interrupted _ _ _ _ Hi). apply IH, Hpre.
  - rewrite Hi, Ho, (turn_polled _ _ _ _ Hi), (xfer_ret_success _ _ Ha).
    assert (H0 : (Z.of_N n <? 0) = false) by (apply Z.ltb_ge; lia).
    assert (H1 : (Z.of_N n >? 0) = true) by (apply Z.gtb_lt; lia).
    rewrite H0, H1. apply IH, Hpre.
Qed.

(** ** directCopy0, answer by answer *)

Lemma tier_B_nil env dst src cancel count st :
  tier_B env dst src cancel count [] st = (None, st).
Proof. reflexivity. Qed.

Lemma tier_B_cons env dst src cancel count s k st :
  tier_B env dst src cancel count (s :: k) st =
  let st1 := xfer_call (sys_sendfile64 dst src None count) s st in
  if interrupted s
  then tier_B env dst src cancel count k st1
  else
    if xfer_ret s <? 0
    then
      if errno st1 =? EAGAIN
      then (Some IOS_UNAVAILABLE, st1)
      else if (errno st1 =? EINVAL) || (errno st1 =? ENOSYS)
           then (Some IOS_UNSUPPORTED_CASE, st1)
           else (Some IOS_THROWN, throwUnixException env (errno st1) st1)
    else
      let st2 := snd (poll_cancel cancel s st1) in
      if observes_set cancel s
      then (Some IOS_THROWN, throwUnixException env ECANCELED st2)
      else if xfer_ret s >? 0
           then tier_B env dst src cancel count k st2
           else (Some OK, st2).
Proof.
  unfold tier_B. rewrite sendfile_loop_cons. cbn zeta.
  repeat match goal with
    | |- context [if ?b then _ else _] => destruct b; try reflexivity
    end.
Qed.

Lemma tier_B_goes_on env dst src cancel count pre k st :
  forallb (goes_on cancel) pre = true ->
  tier_B env dst src cancel count (pre ++ k) st =
  tier_B env dst src cancel count k
    (turns (sys_sendfile64 dst src None count) cancel pre st).
Proof.
  intros Hpre. unfold tier_B. by rewrite sendfile_loop_goes_on.
Qed.

Lemma directCopy0_no_copy_file_range env g dst src cancel k st :
  my_copy_file_range_func g = NULL ->
  directCopy0 env g dst src cancel k st =
  tier_B env dst src cancel (count_of cancel) k st.
Proof. unfold directCopy0. by intros ->. Qed.

Lemma directCopy0_nil env g dst src cancel st :
  directCopy0 env g dst src cancel [] st = (None, st).
Proof. unfold directCopy0. destruct (my_copy_file_range_func g); reflexivity. Qed.

Lemma directCopy0_cons env g dst src cancel s k st :
  my_copy_file_range_func g = Resolved ->
  directCopy0 env g dst src cancel (s :: k) st =
  let st1 := xfer_call (cfr_call dst src cancel) s st in
  if interrupted s
  then directCopy0 env g dst src cancel k st1
  else
    if (xfer_ret s <? 0)
       && negb ((errno st1 =? EINVAL) || (errno st1 =? ENOSYS)
                || (errno st1 =? EXDEV))
    then (Some IOS_THROWN, JNU_ThrowIOExceptionWithLastError "Copy failed" st1)
    else
      let st2 := snd (poll_cancel cancel s st1) in
      if observes_set cancel s
      then (Some IOS_THROWN, throwUnixException env ECANCELED st2)
      else if xfer_ret s >? 0
           then directCopy0 env g dst src cancel k st2
           else if xfer_ret s =? 0
                then (Some OK, st2)
                else tier_B env dst src cancel (count_of cancel) k st2.
Proof.
  intros Hg. unfold directCopy0. rewrite Hg, copy_file_range_loop_cons.
  cbn zeta. unfold cfr_call.
  repeat match goal with
    | |- context [if ?b then _ else _] => destruct b; try reflexivity
    end.
Qed.

Lemma directCopy0_goes_on env g dst src cancel pre k st :
  my_copy_file_range_func g = Resolved ->
  forallb (goes_on cancel) pre = true ->
  directCopy0 env g dst src cancel (pre ++ k) st =
  directCopy0 env g dst src cancel k
    (turns (cfr_call dst src cancel) cancel pre st).
Proof.
  intros Hg Hpre. unfold directCopy0. rewrite Hg.
  by rewrite copy_file_range_loop_goes_on.
Qed.

Lemma abandons_answer s :
  abandons s = true ->
  exists e, answer s = Failure e /\ interrupted s = false
    /\ ((Z.pos e =? EINVAL) || (Z.pos e =? ENOSYS) || (Z.pos e =? EXDEV)) = true.
Proof.
  unfold abandons. destruct (answer s) as [|e] eqn:Ha; [discriminate|].
  intros H. exists e. split; [reflexivity|]. split; [|exact H].
  rewrite (interrupted_failure _ _ Ha). apply Z.eqb_neq.
  unfold EINTR, EINVAL, ENOSYS, EXDEV in *.
  repeat (apply orb_prop in H as [H|H]); apply Z.eqb_eq in H; lia.
Qed.

Lemma directCopy0_abandon env g dst src cancel s k st :
  my_copy_file_range_func g = Resolved ->
  abandons s = true ->
  directCopy0 env g dst src cancel (s :: k) st =
  let st2 := turn (cfr_call dst src cancel) cancel st s in
  if observes_set cancel s
  then (Some IOS_THROWN, throwUnixException env ECANCELED st2)
  else tier_B env dst src cancel (count_of cancel) k st2.
Proof.
  intros Hg Hs. apply abandons_answer in Hs as (e & Ha & Hi & He).
  rewrite (directCopy0_cons _ _ _ _ _ _ _ _ Hg). cbn zeta.
  rewrite Hi, (turn_polled _ _ _ _ Hi), (xfer_ret_failure _ _ Ha).
  rewrite (errno_xfer_call_failure _ _ _ _ Ha), He. cbn.
  reflexivity.
Qed.

Lemma directCopy0_reaches_tier_B env g dst src cancel kA k st :
  reaches_tier_B g cancel kA = true ->
  directCopy0 env g dst src cancel (kA ++ k) st =
  tier_B env dst src cancel (count_of cancel) k
    (turns (cfr_call dst src cancel) cancel kA st).
Proof.
  unfold reaches_tier_B.
  destruct (my_copy_file_range_func g) eqn:Hg.
  - destruct kA; [|discriminate]. intros _.
    apply directCopy0_no_copy_file_range, Hg.
  - revert st. induction kA as [|s kA IH]; intros st H; [discriminate|].
    destruct kA as [|s' kA].
    + cbn [tier_A_abandoned] in H. apply andb_prop in H as [Hs Ho].
      apply negb_true_iff in Ho.
      cbn [app]. rewrite (directCopy0_abandon _ _ _ _ _ _ _ _ Hg Hs).
      cbn zeta. rewrite Ho. reflexivity.
    + cbn [tier_A_abandoned] in H. apply andb_prop in H as [Hs H].
      change ((s :: s' :: kA) ++ k) with ([s] ++ ((s' :: kA) ++ k)).
      rewrite (directCopy0_goes_on _ _ _ _ _ [s]); [|exact Hg|cbn; by rewrite Hs].
      rewrite IH by exact H. reflexivity.
Qed.

(** ** Traces of the chunk loops *)

Lemma trace_poll_cancel cancel s st :
  trace (snd (poll_cancel cancel s st)) =
  trace st ++ (if negb (cancel =? 0) then [ReadCancel (cancel_word s)] else []).
Proof.
  unfold poll_cancel. destruct (negb (cancel =? 0)); cbn; [reflexivity|].
  by rewrite app_nil_r.
Qed.

Lemma trace_xfer_call c s st :
  trace (xfer_call c s st) = trace st ++ [Syscall c (xfer_ret s)].
Proof. apply trace_after_call. Qed.

Lemma trace_turn c cancel st s :
  trace (turn c cancel st s) = trace st ++ turn_events c cancel s.
Proof.
  unfold turn, turn_events. destruct (interrupted s).
  - apply trace_xfer_call.
  - rewrite trace_poll_cancel, trace_xfer_call, <- app_assoc. reflexivity.
Qed.

Lemma trace_turns c cancel pre st :
  trace (turns c cancel pre st) = trace st ++ turns_events c cancel pre.
Proof.
  revert st. induction pre as [|s pre IH]; intros st.
  - cbn. by rewrite app_nil_r.
  - rewrite turns_cons, IH, trace_turn, <- app_assoc. reflexivity.
Qed.

Lemma heap_turns c cancel pre st : heap (turns c cancel pre st) = heap st.
Proof.
  revert st. induction pre as [|s pre IH]; intros st; [reflexivity|].
  rewrite turns_cons, IH.
  unfold turn, xfer_call. destruct (interrupted s);
    rewrite ?heap_poll_cancel, heap_after_call; reflexivity.
Qed.

Lemma pending_turns c cancel pre st : pending (turns c cancel pre st) = pending st.
Proof.
  revert st. induction pre as [|s pre IH]; intros st; [reflexivity|].
  rewrite turns_cons, IH.
  unfold turn, xfer_call. destruct (interrupted s);
    rewrite ?pending_poll_cancel, pending_after_call; reflexivity.
Qed.

Lemma turn_events_chunk c cancel s :
  forallb (chunk_event c) (turn_events c cancel s) = true.
Proof.
  unfold turn_events. cbn [forallb chunk_event].
  rewrite bool_decide_eq_true_2 by reflexivity.
  destruct (interrupted s), (negb (cancel =? 0)); reflexivity.
Qed.

Lemma turns_events_chunk c cancel pre :
  forallb (chunk_event c) (turns_events c cancel pre) = true.
Proof.
  unfold turns_events. induction pre as [|s pre IH]; [reflexivity|].
  cbn [map concat]. rewrite forallb_app, turn_events_chunk, IH. reflexivity.
Qed.

Lemma chunk_event_not_sendfile dst src cancel evs :
  forallb (chunk_event (cfr_call dst src cancel)) evs = true ->
  List.filter is_sendfile evs = [].
Proof.
  induction evs as [|ev evs IH]; [reflexivity|].
  cbn [forallb List.filter]. intros H. apply andb_prop in H as [Hev Hevs].
  rewrite (IH Hevs). destruct ev as [c r| |]; try reflexivity.
  cbn in Hev. apply bool_decide_eq_true_1 in Hev. subst c. reflexivity.
Qed.

Lemma no_sendfile_in_turns dst src cancel pre st :
  sendfile_calls (turns (cfr_call dst src cancel) cancel pre st) =
  sendfile_calls st.
Proof.
  unfold sendfile_calls. rewrite trace_turns, List.filter_app.
  rewrite (chunk_event_not_sendfile dst src cancel (turns_events _ cancel pre))
    by apply turns_events_chunk.
  apply app_nil_r.
Qed.

(** * The transfer engine *)

(** C1, as amended.  When copy_file_range returns 0 after chunks that kept
    the loop turning, directCopy0 returns 0 if no cancellation is seen
    after that call (no handle, or the word reads 0).  If the word is set
    at that point the call throws UnixException(ECANCELED) and returns
    IOS_THROWN: the cancellation test of line 457 comes before the
    completion test of line 463.  Either way sendfile64 is not called. *)
Theorem C1_zero_length_chunk env g dst src cancel pre s k st :
  my_copy_file_range_func g = Resolved ->
  forallb (goes_on cancel) pre = true ->
  answer s = Success 0%N ->
  directCopy0 env g dst src cancel (pre ++ s :: k) st =
  (let st' := turns (cfr_call dst src cancel) cancel (pre ++ [s]) st in
   if observes_set cancel s
   then (Some IOS_THROWN, throwUnixException env ECANCELED st')
   else (Some OK, st'))
  /\ sendfile_calls (snd (directCopy0 env g dst src cancel (pre ++ s :: k) st))
     = sendfile_calls st.
Proof.
  intros Hg Hpre Ha.
  assert (Heq : directCopy0 env g dst src cancel (pre ++ s :: k) st =
    (let st' := turns (cfr_call dst src cancel) cancel (pre ++ [s]) st in
     if observes_set cancel s
     then (Some IOS_THROWN, throwUnixException env ECANCELED st')
     else (Some OK, st'))).
  { rewrite (directCopy0_goes_on _ _ _ _ _ _ _ _ Hg Hpre).
    rewrite (directCopy0_cons _ _ _ _ _ _ _ _ Hg). cbn zeta.
    pose proof (interrupted_success _ _ Ha) as Hi.
    rewrite Hi, (xfer_ret_success _ _ Ha), turns_snoc, (turn_polled _ _ _ _ Hi).
    reflexivity. }
  split; [exact Heq|]. rewrite Heq. cbn zeta.
  destruct (observes_set cancel s); cbn [snd]; unfold sendfile_calls;
    rewrite ?trace_throwUnixException; apply no_sendfile_in_turns.
Qed.

(** C5, as amended.  An error of copy_file_range other than EINTR (which
    restarts the call) is handled thus.  EINVAL, ENOSYS and EXDEV abandon
    the loop, and the sendfile loop takes over with no exception raised,
    unless a cancellation handle was given and the word is found set right
    after the failed call: then UnixException(ECANCELED) is thrown,
    IOS_THROWN returned, and sendfile64 never called.  Any other error
    throws an IOException carrying that error and returns IOS_THROWN,
    with sendfile64 never called. *)
Theorem C5_tier_A_errors env g dst src cancel pre s k e st :
  my_copy_file_range_func g = Resolved ->
  forallb (goes_on cancel) pre = true ->
  answer s = Failure e ->
  Z.pos e <> EINTR ->
  let st0 := turns (cfr_call dst src cancel) cancel pre st in
  let result := directCopy0 env g dst src cancel (pre ++ s :: k) st in
  if (Z.pos e =? EINVAL) || (Z.pos e =? ENOSYS) || (Z.pos e =? EXDEV)
  then
    let st2 := turn (cfr_call dst src cancel) cancel st0 s in
    pending st2 = pending st /\ sendfile_calls st2 = sendfile_calls st /\
    if observes_set cancel s
    then result = (Some IOS_THROWN, throwUnixException env ECANCELED st2)
    else result = tier_B env dst src cancel (count_of cancel) k st2
  else
    result = (Some IOS_THROWN,
              JNU_ThrowIOExceptionWithLastError "Copy failed"
                (xfer_call (cfr_call dst src cancel) s st0))
    /\ pending (snd result)
       = Some (IOExceptionWithLastError (Z.pos e) "Copy failed")
    /\ sendfile_calls (snd result) = sendfile_calls st.
Proof.
  intros Hg Hpre Ha He st0 result. subst st0 result.
  assert (Hi : interrupted s = false).
  { rewrite (interrupted_failure _ _ Ha). by apply Z.eqb_neq. }
  destruct ((Z.pos e =? EINVAL) || (Z.pos e =? ENOSYS) || (Z.pos e =? EXDEV))
    eqn:Hab.
  - assert (Hs : abandons s = true) by (unfold abandons; by rewrite Ha).
    cbn zeta. split; [|split].
    + rewrite <- turns_snoc. apply pending_turns.
    + rewrite <- turns_snoc. apply no_sendfile_in_turns.
    + rewrite (directCopy0_goes_on _ _ _ _ _ _ _ _ Hg Hpre).
      rewrite (directCopy0_abandon _ _ _ _ _ _ _ _ Hg Hs). cbn zeta.
      destruct (observes_set cancel s); reflexivity.
  - assert (Hr : directCopy0 env g dst src cancel (pre ++ s :: k) st =
             (Some IOS_THROWN,
              JNU_ThrowIOExceptionWithLastError "Copy failed"
                (xfer_call (cfr_call dst src cancel) s
                   (turns (cfr_call dst src cancel) cancel pre st)))).
    { rewrite (directCopy0_goes_on _ _ _ _ _ _ _ _ Hg Hpre).
      rewrite (directCopy0_cons _ _ _ _ _ _ _ _ Hg). cbn zeta.
      rewrite Hi, (xfer_ret_failure _ _ Ha).
      rewrite (errno_xfer_call_failure _ _ _ _ Ha), Hab. reflexivity. }
    split; [exact Hr|]. rewrite Hr. cbn [snd]. split.
    + unfold JNU_ThrowIOExceptionWithLastError. cbn [pending Throw].
      by rewrite (errno_xfer_call_failure _ _ _ _ Ha).
    + unfold sendfile_calls, JNU_ThrowIOExceptionWithLastError.
      cbn [trace Throw]. rewrite trace_xfer_call, List.filter_app.
      cbn [List.filter is_sendfile cfr_call]. rewrite app_nil_r.
      apply no_sendfile_in_turns.
Qed.

Lemma directCopy0_tier_B_error env g dst src cancel kA pre s k e st :
  reaches_tier_B g cancel kA = true ->
  forallb (goes_on cancel) pre = true ->
  answer s = Failure e ->
  Z.pos e <> EINTR ->
  directCopy0 env g dst src cancel (kA ++ pre ++ s :: k) st =
  let st1 :=
    xfer_call (sendfile_call dst src cancel) s
      (turns (sendfile_call dst src cancel) cancel pre
         (turns (cfr_call dst src cancel) cancel kA st)) in
  if Z.pos e =? EAGAIN
  then (Some IOS_UNAVAILABLE, st1)
  else if (Z.pos e =? EINVAL) || (Z.pos e =? ENOSYS)
       then (Some IOS_UNSUPPORTED_CASE, st1)
       else (Some IOS_THROWN, throwUnixException env (Z.pos e) st1).
Proof.
  intros HkA Hpre Ha He.
  rewrite (directCopy0_reaches_tier_B _ _ _ _ _ _ _ _ HkA).
  rewrite (tier_B_goes_on _ _ _ _ _ _ _ _ Hpre), tier_B_cons. cbn zeta.
  rewrite (interrupted_failure _ _ Ha).
  apply Z.eqb_neq in He. rewrite He, (xfer_ret_failure _ _ Ha).
  unfold sendfile_call.
  rewrite (errno_xfer_call_failure _ _ _ _ Ha). reflexivity.
Qed.

(** C6.  In the sendfile loop, however it was reached and after any
    chunks that kept it turning, an error other than EINTR (which restarts
    the call) ends the call: EAGAIN returns IOS_UNAVAILABLE, EINVAL and
    ENOSYS return IOS_UNSUPPORTED_CASE, and any other error throws
    UnixException with that very error number and returns IOS_THROWN. *)
Theorem C6_tier_B_errors env g dst src cancel kA pre s k e st :
  reaches_tier_B g cancel kA = true ->
  forallb (goes_on cancel) pre = true ->
  answer s = Failure e ->
  Z.pos e <> EINTR ->
  directCopy0 env g dst src cancel (kA ++ pre ++ s :: k) st =
  let st1 :=
    xfer_call (sendfile_call dst src cancel) s
      (turns (sendfile_call dst src cancel) cancel pre
         (turns (cfr_call dst src cancel) cancel kA st)) in
  if Z.pos e =? EAGAIN
  then (Some IOS_UNAVAILABLE, st1)
  else if (Z.pos e =? EINVAL) || (Z.pos e =? ENOSYS)
       then (Some IOS_UNSUPPORTED_CASE, st1)
       else (Some IOS_THROWN, throwUnixException env (Z.pos e) st1).
Proof. apply directCopy0_tier_B_error. Qed.

Lemma tier_B_never_unsupported env dst src cancel count k :
  forall st, fst (tier_B env dst src cancel count k st) <> Some IOS_UNSUPPORTED.
Proof.
  induction k as [|s k IH]; intros st; [rewrite tier_B_nil; discriminate|].
  rewrite tier_B_cons. cbn zeta.
  repeat match goal with
    | |- context [if ?b then _ else _] => destruct b
    end; try discriminate; apply IH.
Qed.

Lemma directCopy0_never_unsupported env g dst src cancel k :
  forall st, fst (directCopy0 env g dst src cancel k st) <> Some IOS_UNSUPPORTED.
Proof.
  destruct (my_copy_file_range_func g) eqn:Hg.
  - intros st. rewrite (directCopy0_no_copy_file_range _ _ _ _ _ _ _ Hg).
    apply tier_B_never_unsupported.
  - induction k as [|s k IH]; intros st; [rewrite directCopy0_nil; discriminate|].
    rewrite (directCopy0_cons _ _ _ _ _ _ _ _ Hg). cbn zeta.
    repeat match goal with
      | |- context [if ?b then _ else _] => destruct b
      end; try discriminate; try apply IH; apply tier_B_never_unsupported.
Qed.

(** C3, as amended.  With copy_file_range missing, a sendfile64 failure
    with EINVAL or ENOSYS makes directCopy0 return IOS_UNSUPPORTED_CASE,
    the status it also returns when copy_file_range was tried and
    abandoned; on no run at all does directCopy0 return IOS_UNSUPPORTED. *)
Theorem C3_structural_failure_without_tier_A env g dst src cancel pre s k e st :
  my_copy_file_range_func g = NULL ->
  forallb (goes_on cancel) pre = true ->
  answer s = Failure e ->
  Z.pos e = EINVAL \/ Z.pos e = ENOSYS ->
  directCopy0 env g dst src cancel (pre ++ s :: k) st =
    (Some IOS_UNSUPPORTED_CASE,
     xfer_call (sendfile_call dst src cancel) s
       (turns (sendfile_call dst src cancel) cancel pre st))
  /\ forall env' g' dst' src' cancel' k' st',
       fst (directCopy0 env' g' dst' src' cancel' k' st')
       <> Some IOS_UNSUPPORTED.
Proof.
  intros Hg Hpre Ha He. split.
  - assert (HkA : reaches_tier_B g cancel [] = true).
    { unfold reaches_tier_B. by rewrite Hg. }
    assert (Hne : Z.pos e <> EINTR) by (unfold EINTR, EINVAL, ENOSYS in *; lia).
    pose proof (directCopy0_tier_B_error env g dst src cancel [] pre s k e st
                  HkA Hpre Ha Hne) as H.
    cbn [app] in H. rewrite H. cbn zeta.
    destruct He as [He|He]; rewrite He; reflexivity.
  - intros. apply directCopy0_never_unsupported.
Qed.

Lemma polled_in_A_not_interrupted s : polled_in_A s = true -> interrupted s = false.
Proof.
  unfold polled_in_A. destruct (answer s) eqn:Ha.
  - intros _. exact (interrupted_success _ _ Ha).
  - intros H. by apply abandons_answer in H as (? & _ & ? & _).
Qed.

Lemma polled_in_B_success s :
  polled_in_B s = true -> exists n, answer s = Success n.
Proof. unfold polled_in_B. destruct (answer s); [eauto|discriminate]. Qed.

Lemma last_poll c cancel pre s st :
  interrupted s = false ->
  observes_set cancel s = true ->
  last (trace (turns c cancel (pre ++ [s]) st)) = Some (ReadCancel (cancel_word s)).
Proof.
  intros Hi Ho. rewrite turns_snoc, trace_turn. unfold turn_events.
  rewrite Hi. unfold observes_set in Ho. apply andb_prop in Ho as [-> _].
  change [Syscall c (xfer_ret s); ReadCancel (cancel_word s)]
    with ([Syscall c (xfer_ret s)] ++ [ReadCancel (cancel_word s)]).
  rewrite app_assoc. apply last_snoc.
Qed.

(** C2, as amended.  Whenever a cancellation handle was given and the word
    is read non-zero after a chunk operation, in the copy_file_range loop
    or in the sendfile loop, directCopy0 throws UnixException(ECANCELED)
    and returns IOS_THROWN, and the read of the word is the last event of
    the run: no further transfer is issued.  The status is the one
    failures return too; only the error number ECANCELED of the exception
    sets cancellation apart. *)
Theorem C2_cancellation_observed env g dst src cancel :
  (forall pre s k st,
     my_copy_file_range_func g = Resolved ->
     forallb (goes_on cancel) pre = true ->
     polled_in_A s = true ->
     observes_set cancel s = true ->
     let st' := turns (cfr_call dst src cancel) cancel (pre ++ [s]) st in
     let result := directCopy0 env g dst src cancel (pre ++ s :: k) st in
     result = (Some IOS_THROWN, throwUnixException env ECANCELED st')
     /\ last (trace (snd result)) = Some (ReadCancel (cancel_word s)))
  /\
  (forall kA pre s k st,
     reaches_tier_B g cancel kA = true ->
     forallb (goes_on cancel) pre = true ->
     polled_in_B s = true ->
     observes_set cancel s = true ->
     let st' := turns (sendfile_call dst src cancel) cancel (pre ++ [s])
                  (turns (cfr_call dst src cancel) cancel kA st) in
     let result := directCopy0 env g dst src cancel (kA ++ pre ++ s :: k) st in
     result = (Some IOS_THROWN, throwUnixException env ECANCELED st')
     /\ last (trace (snd result)) = Some (ReadCancel (cancel_word s))).
Proof.
  split.
  - intros pre s k st Hg Hpre Hs Ho st' result. subst st' result.
    pose proof (polled_in_A_not_interrupted _ Hs) as Hi.
    assert (Heq : directCopy0 env g dst src cancel (pre ++ s :: k) st =
      (Some IOS_THROWN, throwUnixException env ECANCELED
         (turns (cfr_call dst src cancel) cancel (pre ++ [s]) st))).
    { rewrite (directCopy0_goes_on _ _ _ _ _ _ _ _ Hg Hpre), turns_snoc.
      unfold polled_in_A in Hs. destruct (answer s) as [n|e] eqn:Ha.
      - rewrite (directCopy0_cons _ _ _ _ _ _ _ _ Hg). cbn zeta.
        rewrite Hi, Ho, (xfer_ret_success _ _ Ha), (turn_polled _ _ _ _ Hi).
        assert (H0 : (Z.of_N n <? 0) = false) by (apply Z.ltb_ge; lia).
        rewrite H0. reflexivity.
      - rewrite (directCopy0_abandon _ _ _ _ _ _ _ _ Hg Hs). cbn zeta.
        rewrite Ho. reflexivity. }
    split; [exact Heq|]. rewrite Heq. cbn [snd].
    rewrite trace_throwUnixException. by apply last_poll.
  - intros kA pre s k st HkA Hpre Hs Ho st' result. subst st' result.
    apply polled_in_B_success in Hs as [n Ha].
    pose proof (interrupted_success _ _ Ha) as Hi.
    assert (Heq : directCopy0 env g dst src cancel (kA ++ pre ++ s :: k) st =
      (Some IOS_THROWN, throwUnixException env ECANCELED
         (turns (sendfile_call dst src cancel) cancel (pre ++ [s])
            (turns (cfr_call dst src cancel) cancel kA st)))).
    { rewrite (directCopy0_reaches_tier_B _ _ _ _ _ _ _ _ HkA).
      rewrite (tier_B_goes_on _ _ _ _ _ _ _ _ Hpre), tier_B_cons, turns_snoc.
      cbn zeta. unfold sendfile_call.
      rewrite Hi, Ho, (xfer_ret_success _ _ Ha), (turn_polled _ _ _ _ Hi).
      assert (H0 : (Z.of_N n <? 0) = false) by (apply Z.ltb_ge; lia).
      rewrite H0. reflexivity. }
    split; [exact Heq|]. rewrite Heq. cbn [snd].
    rewrite trace_throwUnixException. by apply last_poll.
Qed.

(** ** The transfer engine on sample runs *)

Lemma C1_zero_length_chunk_witness :
  my_copy_file_range_func caps_all = Resolved
  /\ forallb (goes_on 4096) [chunk 7 0; fails 4 1] = true
  /\ answer (chunk 0 0) = Success 0%N
  /\ fst (directCopy0 env_ok caps_all 3 4 4096
            ([chunk 7 0; fails 4 1] ++ chunk 0 0 :: []) state0) = Some OK.
Proof.
  repeat (split; [reflexivity|]).
  destruct (C1_zero_length_chunk env_ok caps_all 3 4 4096
              [chunk 7 0; fails 4 1] (chunk 0 0) [] state0
              eq_refl eq_refl eq_refl) as [H _].
  rewrite H. reflexivity.
Defined.

(** C1 as stated fails: copy_file_range returns 0 while the cancellation
    word is set, and the call is reported cancelled, not successful. *)
Lemma C1_counterexample :
  answer (chunk 0 1) = Success 0%N
  /\ fst (directCopy0 env_ok caps_all 3 4 4096 [chunk 0 1] state0)
     = Some IOS_THROWN
  /\ pending (snd (directCopy0 env_ok caps_all 3 4 4096 [chunk 0 1] state0))
     = Some (UnixException ECANCELED)
  /\ fst (directCopy0 env_ok caps_all 3 4 4096 [chunk 0 1] state0) <> Some OK.
Proof. repeat split; try reflexivity. discriminate. Qed.

Lemma C2_cancellation_observed_witness :
  (forallb (goes_on 4096) [chunk 7 0] = true
   /\ polled_in_A (chunk 9 1) = true
   /\ observes_set 4096 (chunk 9 1) = true
   /\ fst (directCopy0 env_ok caps_all 3 4 4096
             ([chunk 7 0] ++ chunk 9 1 :: [chunk 0 0]) state0)
      = Some IOS_THROWN)
  /\
  (reaches_tier_B caps_all 4096 [fails 18 0] = true
   /\ polled_in_B (chunk 9 1) = true
   /\ last (trace (snd (directCopy0 env_ok caps_all 3 4 4096
                     ([fails 18 0] ++ [chunk 7 0] ++ chunk 9 1 :: [chunk 0 0])
                     state0)))
      = Some (ReadCancel 1)).
Proof.
  destruct (C2_cancellation_observed env_ok caps_all 3 4 4096) as [HA HB].
  split.
  - repeat (split; [reflexivity|]).
    destruct (HA [chunk 7 0] (chunk 9 1) [chunk 0 0] state0
                eq_refl eq_refl eq_refl eq_refl) as [H _].
    rewrite H. reflexivity.
  - repeat (split; [reflexivity|]).
    destruct (HB [fails 18 0] [chunk 7 0] (chunk 9 1) [chunk 0 0] state0
                eq_refl eq_refl eq_refl eq_refl) as [_ H].
    exact H.
Defined.

(** C2 as stated fails: a run cancelled after a chunk and a run in which
    sendfile64 fails with ECANCELED leave the caller with the same status,
    the same exception and the same heap. *)
Lemma C2_counterexample :
  let cancelled := directCopy0 env_ok caps_none 3 4 4096 [chunk 5 1] state0 in
  let failed := directCopy0 env_ok caps_none 3 4 4096 [fails 125 0] state0 in
  observes_set 4096 (chunk 5 1) = true
  /\ trace (snd failed) = [Syscall (sendfile_call 3 4 4096) (-1)]
  /\ outcome cancelled = outcome failed
  /\ outcome cancelled = (Some IOS_THROWN, ∅, Some (UnixException ECANCELED)).
Proof. repeat split; reflexivity. Qed.

Lemma C3_structural_failure_without_tier_A_witness :
  my_copy_file_range_func caps_none = NULL
  /\ forallb (goes_on 0) [chunk 7 0; fails 4 0] = true
  /\ fst (directCopy0 env_ok caps_none 3 4 0
            ([chunk 7 0; fails 4 0] ++ fails 38 0 :: []) state0)
     = Some IOS_UNSUPPORTED_CASE.
Proof.
  repeat (split; [reflexivity|]).
  destruct (C3_structural_failure_without_tier_A env_ok caps_none 3 4 0
              [chunk 7 0; fails 4 0] (fails 38 0) [] 38 state0
              eq_refl eq_refl eq_refl (or_intror eq_refl)) as [H _].
  rewrite H. reflexivity.
Defined.

(** C3 as stated fails: copy_file_range is missing, sendfile64 fails with
    EINVAL, and the status is IOS_UNSUPPORTED_CASE, not IOS_UNSUPPORTED. *)
Lemma C3_counterexample :
  my_copy_file_range_func caps_none = NULL
  /\ fst (directCopy0 env_ok caps_none 3 4 0 [fails 22 0] state0)
     = Some IOS_UNSUPPORTED_CASE
  /\ fst (directCopy0 env_ok caps_none 3 4 0 [fails 22 0] state0)
     <> Some IOS_UNSUPPORTED.
Proof. repeat split; try reflexivity. discriminate. Qed.

Lemma C5_tier_A_errors_witness :
  forallb (goes_on 0) [chunk 7 0] = true
  /\ directCopy0 env_ok caps_all 3 4 0 ([chunk 7 0] ++ fails 5 0 :: []) state0
     = (Some IOS_THROWN,
        JNU_ThrowIOExceptionWithLastError "Copy failed"
          (xfer_call (cfr_call 3 4 0) (fails 5 0)
             (turns (cfr_call 3 4 0) 0 [chunk 7 0] state0))).
Proof.
  split; [reflexivity|].
  assert (H5 : Z.pos 5 <> EINTR) by discriminate.
  exact (proj1 (C5_tier_A_errors env_ok caps_all 3 4 0 [chunk 7 0] (fails 5 0)
                  [] 5 state0 eq_refl eq_refl eq_refl H5)).
Defined.

(** C5 as stated fails: copy_file_range fails with EXDEV while the
    cancellation word is set; the call throws and returns IOS_THROWN, and
    sendfile64 is never called although its answers were at hand. *)
Lemma C5_counterexample :
  let result :=
    directCopy0 env_ok caps_all 3 4 4096 [fails 18 1; chunk 7 0; chunk 0 0]
      state0 in
  abandons (fails 18 1) = true
  /\ fst result = Some IOS_THROWN
  /\ pending (snd result) = Some (UnixException ECANCELED)
  /\ sendfile_calls (snd result) = [].
Proof. repeat split; reflexivity. Qed.

Lemma C6_tier_B_errors_witness :
  reaches_tier_B caps_all 0 [fails 18 0] = true
  /\ forallb (goes_on 0) [chunk 7 0] = true
  /\ fst (directCopy0 env_ok caps_all 3 4 0
            ([fails 18 0] ++ [chunk 7 0] ++ fails 11 0 :: []) state0)
     = Some IOS_UNAVAILABLE.
Proof.
  repeat (split; [reflexivity|]).
  assert (H11 : Z.pos 11 <> EINTR) by discriminate.
  rewrite (C6_tier_B_errors env_ok caps_all 3 4 0 [fails 18 0] [chunk 7 0]
             (fails 11 0) [] 11 state0 eq_refl eq_refl eq_refl H11).
  reflexivity.
Defined.

(** * Metadata queries *)

Lemma heap_retries {E} (ret : E -> Z) err c (pre : list E) st :
  heap (retries ret err c pre st) = heap st.
Proof.
  revert st. induction pre as [|r pre IH]; intros st; [reflexivity|].
  cbn [retries fold_left]. fold (retries ret err c pre (after_call c (ret r) (err r) st)).
  rewrite IH. apply heap_after_call.
Qed.

Lemma pending_retries {E} (ret : E -> Z) err c (pre : list E) st :
  pending (retries ret err c pre st) = pending st.
Proof.
  revert st. induction pre as [|r pre IH]; intros st; [reflexivity|].
  cbn [retries fold_left]. fold (retries ret err c pre (after_call c (ret r) (err r) st)).
  rewrite IH. apply pending_after_call.
Qed.

Lemma trace_retries {E} (ret : E -> Z) err c (pre : list E) st :
  trace (retries ret err c pre st) =
  trace st ++ map (fun r => Syscall c (ret r)) pre.
Proof.
  revert st. induction pre as [|r pre IH]; intros st.
  - cbn. by rewrite app_nil_r.
  - cbn [retries fold_left]. fold (retries ret err c pre (after_call c (ret r) (err r) st)).
    rewrite IH, trace_after_call, <- app_assoc. reflexivity.
Qed.

Lemma syscalls_of_app evs1 evs2 :
  syscalls_of (evs1 ++ evs2) = syscalls_of evs1 ++ syscalls_of evs2.
Proof. apply omap_app. Qed.

Lemma syscalls_of_calls {E} (ret : E -> Z) c (pre : list E) :
  syscalls_of (map (fun r => Syscall c (ret r)) pre) = replicate (length pre) c.
Proof. induction pre as [|r pre IH]; [reflexivity|]. cbn. by rewrite <- IH. Qed.

Lemma field_writes_app st evs st' :
  trace st' = trace st ++ evs ->
  field_writes st' = field_writes st ++ List.filter is_field_write evs.
Proof. unfold field_writes. intros ->. apply List.filter_app. Qed.

Lemma no_field_write_in_calls {E} (ret : E -> Z) c (pre : list E) :
  List.filter is_field_write (map (fun r => Syscall c (ret r)) pre) = [].
Proof. induction pre as [|r pre IH]; [reflexivity|]. exact IH. Qed.

(** What a query does, by the answer RESTARTABLE delivers. *)
Lemma RESTARTABLE_statx_delivered c k st :
  match statx_delivered k with
  | Some r =>
      exists pre k',
        k = pre ++ r :: k'
        /\ RESTARTABLE statx_ret statx_err c k st =
           (Some (r, k'), statx_call c r (statx_retries c pre st))
        /\ statx_interrupted r = false
        /\ forallb statx_interrupted pre = true
  | None =>
      RESTARTABLE statx_ret statx_err c k st = (None, statx_retries c k st)
      /\ forallb statx_interrupted k = true
  end.
Proof.
  unfold statx_delivered. revert st. induction k as [|a k IH]; intros st.
  - cbn. auto.
  - cbn [List.find]. rewrite (RESTARTABLE_cons _ _ statx_ret_err).
    fold statx_interrupted. destruct (statx_interrupted a) eqn:Ha; cbn [negb].
    + specialize (IH (after_call c (statx_ret a) (statx_err a) st)).
      destruct (List.find _ k) as [r|].
      * destruct IH as (pre & k' & -> & HR & Hr & Hpre).
        exists (a :: pre), k'. cbn [forallb]. rewrite Ha, Hpre. auto.
      * destruct IH as [HR Hk]. cbn [forallb]. rewrite Ha, Hk. auto.
    + exists [], k. auto.
Qed.

Lemma statx_query_state c pre r st :
  let st1 := statx_call c r (statx_retries c pre st) in
  heap st1 = heap st /\ pending st1 = pending st
  /\ field_writes st1 = field_writes st
  /\ syscalls_of (trace st1) = syscalls_of (trace st) ++ replicate (S (length pre)) c.
Proof.
  cbn zeta. unfold statx_call, statx_retries.
  rewrite heap_after_call, heap_retries, pending_after_call, pending_retries.
  repeat split.
  - erewrite field_writes_app; [|apply trace_after_call].
    erewrite (field_writes_app st); [|apply trace_retries].
    rewrite no_field_write_in_calls. cbn. by rewrite !app_nil_r.
  - rewrite trace_after_call, trace_retries, !syscalls_of_app.
    rewrite syscalls_of_calls, <- app_assoc. f_equal.
    cbn. rewrite <- replicate_cons_app. reflexivity.
Qed.

Lemma trace_copy_statx_attributes buf attrs st :
  exists evs,
    trace (copy_statx_attributes buf attrs st) = trace st ++ evs
    /\ length evs = 16%nat
    /\ List.filter is_field_write evs = evs
    /\ syscalls_of evs = [].
Proof.
  eexists. split.
  - unfold copy_statx_attributes, SetIntField, SetLongField, SetField.
    cbn [trace set_heap log]. rewrite <- !app_assoc. cbn [app]. reflexivity.
  - repeat split; reflexivity.
Qed.

Lemma pending_copy_statx_attributes buf attrs st :
  pending (copy_statx_attributes buf attrs st) = pending st.
Proof. reflexivity. Qed.

(** A query, case by case: the shared body of statx0 and statxfd0 behind
    the call [c] it restarts. *)
Lemma statx_query_cases c attrs k st :
  match statx_delivered k with
  | Some r =>
      exists pre,
        forallb statx_interrupted pre = true
        /\ (length pre < length k)%nat
        /\ statx_interrupted r = false
        /\ (match RESTARTABLE statx_ret statx_err c k st with
            | (None, st1) => (None, st1)
            | (Some (r, _), st1) =>
                if statx_ret r =? 0
                then (Some 0, copy_statx_attributes
                                (statx_filled r statx_buf_unset) attrs st1)
                else (Some (errno st1), st1)
            end) =
           (let st1 := statx_call c r (statx_retries c pre st) in
            match r with
            | Success buf => (Some 0, copy_statx_attributes buf attrs st1)
            | Failure e => (Some (Z.pos e), st1)
            end)
  | None =>
      (match RESTARTABLE statx_ret statx_err c k st with
       | (None, st1) => (None, st1)
       | (Some (r, _), st1) =>
           if statx_ret r =? 0
           then (Some 0, copy_statx_attributes
                           (statx_filled r statx_buf_unset) attrs st1)
           else (Some (errno st1), st1)
       end) = (None, statx_retries c k st)
  end.
Proof.
  pose proof (RESTARTABLE_statx_delivered c k st) as H.
  destruct (statx_delivered k) as [r|].
  - destruct H as (pre & k' & -> & -> & Hr & Hpre). exists pre.
    repeat split; try assumption.
    + rewrite length_app. cbn [length]. lia.
    + destruct r; reflexivity.
  - destruct H as [-> _]. reflexivity.
Qed.

Lemma statx_query_sound g c attrs k st result :
  (my_statx_func g = NULL -> result = (Some 0, st)) ->
  (my_statx_func g = Resolved ->
   result =
   match RESTARTABLE statx_ret statx_err c k st with
   | (None, st1) => (None, st1)
   | (Some (r, _), st1) =>
       if statx_ret r =? 0
       then (Some 0, copy_statx_attributes
                       (statx_filled r statx_buf_unset) attrs st1)
       else (Some (errno st1), st1)
   end) ->
  statx_query_effect g attrs k st result.
Proof.
  intros Hnull Hres. unfold statx_query_effect.
  destruct (my_statx_func g).
  - rewrite Hnull by reflexivity. destruct (statx_delivered k) as [[?|?]|]; auto.
  - rewrite Hres by reflexivity. clear Hnull Hres.
    pose proof (statx_query_cases c attrs k st) as H.
    destruct (statx_delivered k) as [r|].
    + destruct H as (pre & Hpre & Hlen & Hr & ->). cbn zeta.
      destruct (statx_query_state c pre r st) as (Hh & Hp & Hw & Hs).
      destruct r as [buf|e]; cbn [fst snd].
      * split; [reflexivity|]. eexists. split; [reflexivity|].
        split; [exact Hh|]. split; [exact Hw|].
        destruct (trace_copy_statx_attributes buf attrs
                    (statx_call c (Success buf) (statx_retries c pre st)))
          as (evs & Ht & Hn & Hf & _).
        rewrite (field_writes_app _ _ _ Ht), Hf, length_app, Hw, Hn.
        reflexivity.
      * auto.
    + rewrite H. cbn [fst snd]. unfold statx_retries.
      rewrite heap_retries. repeat split.
      erewrite field_writes_app; [|apply trace_retries].
      rewrite no_field_write_in_calls. apply app_nil_r.
Qed.

Lemma statx0_effect env g path attrs follow_links k st :
  statx_query_effect g attrs k st (statx0 env g path attrs follow_links k st).
Proof.
  apply (statx_query_sound g (statx0_call path follow_links));
    unfold statx0; intros ->; reflexivity.
Qed.

Lemma statxfd0_effect env g fd attrs k st :
  statx_query_effect g attrs k st (statxfd0 env g fd attrs k st).
Proof.
  apply (statx_query_sound g (statxfd0_call fd));
    unfold statxfd0; intros ->; reflexivity.
Qed.

(** C10.  Whatever the kernel answers, statx0 and statxfd0 write the
    attributes object only when the restarted statx call is delivered a
    success, and then return 0, all sixteen fields being set by
    copy_statx_attributes.  When the call fails, when its answers run out,
    and when statx is unavailable, the heap and the list of JNI field
    writes are what they were. *)
Theorem C10_attributes_written_only_on_success env g attrs k st :
  (forall path follow_links,
     statx_query_effect g attrs k st (statx0 env g path attrs follow_links k st))
  /\ (forall fd,
        statx_query_effect g attrs k st (statxfd0 env g fd attrs k st)).
Proof. split; intros; [apply statx0_effect | apply statxfd0_effect]. Qed.

(** C4, as amended.  With statx unavailable, statx0 and statxfd0 return 0
    and leave the whole state as it was: no kernel call, no field write.
    The 0 differs from every error code a query returns, error numbers
    being positive, but it is the very value a successful query returns:
    the result alone does not tell the two apart. *)
Theorem C4_statx_unavailable env g attrs :
  my_statx_func g = NULL ->
  (forall path follow_links k st,
     statx0 env g path attrs follow_links k st = (Some 0, st))
  /\ (forall fd k st, statxfd0 env g fd attrs k st = (Some 0, st))
  /\ (forall env' g' path follow_links fd k st e,
        my_statx_func g' = Resolved ->
        statx_delivered k = Some (Failure e) ->
        fst (statx0 env' g' path attrs follow_links k st) = Some (Z.pos e)
        /\ fst (statxfd0 env' g' fd attrs k st) = Some (Z.pos e)
        /\ Z.pos e <> 0)
  /\ (forall env' g' path follow_links fd k st buf,
        my_statx_func g' = Resolved ->
        statx_delivered k = Some (Success buf) ->
        fst (statx0 env' g' path attrs follow_links k st) = Some 0
        /\ fst (statxfd0 env' g' fd attrs k st) = Some 0).
Proof.
  intros Hg. split; [|split; [|split]].
  - intros. unfold statx0. by rewrite Hg.
  - intros. unfold statxfd0. by rewrite Hg.
  - intros env' g' path follow_links fd k st e Hg' Hd.
    pose proof (statx0_effect env' g' path attrs follow_links k st) as H0.
    pose proof (statxfd0_effect env' g' fd attrs k st) as Hfd.
    unfold statx_query_effect in H0, Hfd. rewrite Hg', Hd in H0, Hfd.
    split; [apply H0|]. split; [apply Hfd|]. discriminate.
  - intros env' g' path follow_links fd k st buf Hg' Hd.
    pose proof (statx0_effect env' g' path attrs follow_links k st) as H0.
    pose proof (statxfd0_effect env' g' fd attrs k st) as Hfd.
    unfold statx_query_effect in H0, Hfd. rewrite Hg', Hd in H0, Hfd.
    split; [apply H0 | apply Hfd].
Qed.

Lemma C4_statx_unavailable_witness :
  my_statx_func caps_none = NULL
  /\ statx0 env_ok caps_none "/tmp/f" sample_attrs JNI_FALSE
       [Failure 2; Success sample_statx] state1 = (Some 0, state1)
  /\ statxfd0 env_ok caps_none 5 sample_attrs [Success sample_statx] state1
     = (Some 0, state1).
Proof.
  split; [reflexivity|].
  destruct (C4_statx_unavailable env_ok caps_none sample_attrs eq_refl)
    as (H0 & Hfd & _).
  split; [apply H0 | apply Hfd].
Defined.

(** C4 as stated fails: a query that was not performed and a query that
    succeeded return the same 0; on an attributes object that already
    holds the values of the file, heap and exception are the same too. *)
Lemma C4_counterexample :
  let filled := copy_statx_attributes sample_statx sample_attrs state1 in
  let st := {| errno := 0; heap := heap filled; pending := None; trace := [] |} in
  let not_performed :=
    statx0 env_ok caps_none "/tmp/f" sample_attrs JNI_TRUE [] st in
  let succeeded :=
    statx0 env_ok caps_all "/tmp/f" sample_attrs JNI_TRUE
      [Success sample_statx] st in
  my_statx_func caps_none = NULL
  /\ fst not_performed = Some 0
  /\ syscalls_of (trace (snd not_performed)) = []
  /\ syscalls_of (trace (snd succeeded))
     = [sys_statx AT_FDCWD "/tmp/f" AT_STATX_SYNC_AS_STAT STATX_ALL]
  /\ outcome not_performed = outcome succeeded.
Proof. repeat split; vm_compute; reflexivity. Qed.

Lemma statx_query_calls g c attrs k st result :
  (my_statx_func g = NULL -> result = (Some 0, st)) ->
  (my_statx_func g = Resolved ->
   result =
   match RESTARTABLE statx_ret statx_err c k st with
   | (None, st1) => (None, st1)
   | (Some (r, _), st1) =>
       if statx_ret r =? 0
       then (Some 0, copy_statx_attributes
                       (statx_filled r statx_buf_unset) attrs st1)
       else (Some (errno st1), st1)
   end) ->
  exists n,
    syscalls_of (trace (snd result)) = syscalls_of (trace st) ++ replicate n c
    /\ (my_statx_func g = Resolved -> k <> [] -> (0 < n)%nat)
    /\ (my_statx_func g = NULL -> n = 0%nat).
Proof.
  intros Hnull Hres. destruct (my_statx_func g).
  - rewrite Hnull by reflexivity. exists 0%nat. cbn [snd replicate].
    rewrite app_nil_r. repeat split; [discriminate|..]; auto.
  - rewrite Hres by reflexivity. clear Hnull Hres.
    pose proof (statx_query_cases c attrs k st) as H.
    destruct (statx_delivered k) as [r|].
    + destruct H as (pre & Hpre & Hlen & Hr & ->). cbn zeta.
      destruct (statx_query_state c pre r st) as (_ & _ & _ & Hs).
      exists (S (length pre)). split; [|split; [intros; lia | discriminate]].
      destruct r as [buf|e]; cbn [snd]; [|exact Hs].
      destruct (trace_copy_statx_attributes buf attrs
                  (statx_call c (Success buf) (statx_retries c pre st)))
        as (evs & -> & _ & _ & Hc).
      rewrite syscalls_of_app, Hc, app_nil_r. exact Hs.
    + rewrite H. cbn [snd]. exists (length k). unfold statx_retries.
      rewrite trace_retries, syscalls_of_app, syscalls_of_calls.
      split; [reflexivity|]. split; [|discriminate].
      intros _ Hk. destruct k; [done | cbn; lia].
Qed.

(** C9.  Every statx call statx0 issues has directory AT_FDCWD, the path
    it was given and the mask STATX_ALL; its flags are
    AT_STATX_SYNC_AS_STAT with AT_SYMLINK_NOFOLLOW or-ed in exactly when
    follow_links is JNI_FALSE.  So bit 8, the no-follow bit, is set for
    follow_links false and clear otherwise, and the other flag bits are
    the same in both cases.  With statx resolved and an answer at hand at
    least one such call is issued. *)
Theorem C9_symlink_policy env g path attrs follow_links k st :
  let flags :=
    if follow_links =? JNI_FALSE
    then Z.lor AT_STATX_SYNC_AS_STAT AT_SYMLINK_NOFOLLOW
    else AT_STATX_SYNC_AS_STAT in
  (exists n,
     syscalls_of (trace (snd (statx0 env g path attrs follow_links k st)))
     = syscalls_of (trace st)
       ++ replicate n (sys_statx AT_FDCWD path flags STATX_ALL)
     /\ (my_statx_func g = Resolved -> k <> [] -> (0 < n)%nat))
  /\ statx_wrapper AT_FDCWD path AT_STATX_SYNC_AS_STAT STATX_ALL
       NO_FOLLOW_SYMLINK
     = sys_statx AT_FDCWD path
         (Z.lor AT_STATX_SYNC_AS_STAT AT_SYMLINK_NOFOLLOW) STATX_ALL
  /\ statx_wrapper AT_FDCWD path AT_STATX_SYNC_AS_STAT STATX_ALL
       FOLLOW_SYMLINK
     = sys_statx AT_FDCWD path AT_STATX_SYNC_AS_STAT STATX_ALL
  /\ Z.testbit flags 8 = (follow_links =? JNI_FALSE)
  /\ Z.land flags (Z.lnot AT_SYMLINK_NOFOLLOW) = AT_STATX_SYNC_AS_STAT
  /\ AT_SYMLINK_NOFOLLOW = 2 ^ 8.
Proof.
  cbn zeta. split; [|repeat split].
  - destruct (statx_query_calls g (statx0_call path follow_links) attrs k st
                (statx0 env g path attrs follow_links k st))
      as (n & Hn & Hpos & _).
    + unfold statx0. by intros ->.
    + unfold statx0. by intros ->.
    + exists n. split; [|exact Hpos]. rewrite Hn. f_equal. f_equal.
      unfold statx0_call, statx_wrapper.
      destruct (follow_links =? JNI_FALSE); reflexivity.
  - destruct (follow_links =? JNI_FALSE); reflexivity.
  - destruct (follow_links =? JNI_FALSE); reflexivity.
Qed.

(** * Every kernel call of a copy *)

Lemma extends_same P st st' : trace st' = trace st -> extends P st st'.
Proof. intros H. exists []. rewrite app_nil_r. auto. Qed.

Lemma extends_trans P st1 st2 st3 :
  extends P st1 st2 -> extends P st2 st3 -> extends P st1 st3.
Proof.
  intros (evs1 & H1 & HP1) (evs2 & H2 & HP2). exists (evs1 ++ evs2).
  rewrite H2, H1, app_assoc, forallb_app, HP1, HP2. auto.
Qed.

Lemma extends_xfer_call P c s st :
  P (Syscall c (xfer_ret s)) = true -> extends P st (xfer_call c s st).
Proof.
  intros HP. exists [Syscall c (xfer_ret s)]. rewrite trace_xfer_call.
  cbn [forallb]. rewrite HP. auto.
Qed.

Lemma extends_poll_cancel P cancel s st :
  (forall v, P (ReadCancel v) = true) ->
  extends P st (snd (poll_cancel cancel s st)).
Proof.
  intros HP. eexists. split; [apply trace_poll_cancel|].
  destruct (negb (cancel =? 0)); cbn [forallb]; rewrite ?HP; reflexivity.
Qed.

Lemma extends_throwUnixException P env e st st' :
  extends P st st' -> extends P st (throwUnixException env e st').
Proof.
  intros H. eapply extends_trans; [exact H|].
  apply extends_same, trace_throwUnixException.
Qed.

Lemma extends_ThrowIOException P msg st st' :
  extends P st st' -> extends P st (JNU_ThrowIOExceptionWithLastError msg st').
Proof.
  intros H. eapply extends_trans; [exact H|]. by apply extends_same.
Qed.

Lemma chunk_event_call c r : chunk_event c (Syscall c r) = true.
Proof. cbn. by apply bool_decide_eq_true_2. Qed.

Ltac extends_step IH :=
  lazymatch goal with
  | |- extends _ _ (throwUnixException _ _ _) => apply extends_throwUnixException
  | |- extends _ _ (JNU_ThrowIOExceptionWithLastError _ _) =>
      apply extends_ThrowIOException
  | |- extends _ _ (snd (poll_cancel _ _ _)) =>
      eapply extends_trans;
      [|apply extends_poll_cancel; intros; reflexivity]
  | |- extends _ _ (xfer_call _ _ _) =>
      apply extends_xfer_call; cbn beta;
      rewrite ?chunk_event_call, ?orb_true_r; reflexivity
  | |- extends _ _ _ => eapply extends_trans; [|apply IH]
  end.

Lemma tier_B_extends env dst src cancel count k :
  forall st,
    extends (chunk_event (sys_sendfile64 dst src None count)) st
      (snd (tier_B env dst src cancel count k st)).
Proof.
  induction k as [|s k IH]; intros st.
  - rewrite tier_B_nil. by apply extends_same.
  - rewrite tier_B_cons. cbn zeta.
    repeat match goal with
      | |- context [if ?b then _ else _] => destruct b
      end; cbn [snd]; repeat extends_step IH.
Qed.

Lemma extends_weaken (P Q : event -> bool) st st' :
  (forall ev, P ev = true -> Q ev = true) -> extends P st st' -> extends Q st st'.
Proof.
  intros HPQ (evs & Ht & HP). exists evs. split; [exact Ht|].
  apply forallb_forall. intros ev Hev.
  apply HPQ. revert ev Hev. by apply forallb_forall.
Qed.

Lemma directCopy0_extends env g dst src cancel k :
  forall st,
    extends (fun ev => chunk_event (cfr_call dst src cancel) ev
                       || chunk_event (sendfile_call dst src cancel) ev)
      st (snd (directCopy0 env g dst src cancel k st)).
Proof.
  assert (HB : forall k st,
    extends (fun ev => chunk_event (cfr_call dst src cancel) ev
                       || chunk_event (sendfile_call dst src cancel) ev)
      st (snd (tier_B env dst src cancel (count_of cancel) k st))).
  { intros k' st. eapply extends_weaken; [|apply tier_B_extends].
    intros ev Hev. unfold sendfile_call. rewrite Hev. apply orb_true_r. }
  destruct (my_copy_file_range_func g) eqn:Hg.
  - intros st. rewrite (directCopy0_no_copy_file_range _ _ _ _ _ _ _ Hg).
    apply HB.
  - induction k as [|s k IH]; intros st.
    + rewrite directCopy0_nil. by apply extends_same.
    + rewrite (directCopy0_cons _ _ _ _ _ _ _ _ Hg). cbn zeta.
      repeat match goal with
        | |- context [if ?b then _ else _] => destruct b
        end; cbn [snd];
      try (eapply extends_trans; [|apply HB]);
      repeat extends_step IH.
Qed.

(** C8.  The size asked for in a chunk is fixed when directCopy0 starts:
    1048576 bytes, 2^20, when a cancellation handle is given, and
    0x7ffff000 otherwise, the most Linux transfers in one sendfile or
    copy_file_range call.  Every kernel call of the run, whatever the
    kernel answers, is copy_file_range or sendfile64 between the same two
    descriptors with that one size. *)
Theorem C8_chunk_size env g dst src cancel k st :
  count_of cancel = (if cancel =? 0 then MAX_RW_COUNT else 1048576)
  /\ 1048576 = 2 ^ 20
  /\ MAX_RW_COUNT = 0x7ffff000
  /\ extends
       (fun ev =>
          chunk_event
            (sys_copy_file_range src None dst None (count_of cancel) 0) ev
          || chunk_event (sys_sendfile64 dst src None (count_of cancel)) ev)
       st (snd (directCopy0 env g dst src cancel k st)).
Proof.
  split; [|split; [|split]].
  - unfold count_of. destruct (cancel =? 0); reflexivity.
  - reflexivity.
  - reflexivity.
  - apply directCopy0_extends.
Qed.

(** * Restarting interrupted calls *)

Lemma outcome_same_view {A} (r : option A) st st' :
  same_view st st' -> outcome (r, st) = outcome (r, st').
Proof. intros [Hh Hp]. unfold outcome. cbn. by rewrite Hh, Hp. Qed.

Lemma same_view_refl st : same_view st st.
Proof. by split. Qed.

Lemma same_view_after_call_l c ret err st st' :
  same_view st st' -> same_view (after_call c ret err st) st'.
Proof.
  intros [Hh Hp]. split; by rewrite ?heap_after_call, ?pending_after_call.
Qed.

Lemma same_view_after_call c ret err st st' :
  same_view st st' ->
  same_view (after_call c ret err st) (after_call c ret err st').
Proof.
  intros [Hh Hp]. split; by rewrite ?heap_after_call, ?pending_after_call.
Qed.

Lemma same_view_poll_cancel cancel s st st' :
  same_view st st' ->
  same_view (snd (poll_cancel cancel s st)) (snd (poll_cancel cancel s st')).
Proof.
  intros [Hh Hp]. split; by rewrite ?heap_poll_cancel, ?pending_poll_cancel.
Qed.

Lemma same_view_throwUnixException env e st st' :
  same_view st st' ->
  same_view (throwUnixException env e st) (throwUnixException env e st').
Proof.
  intros [Hh Hp].
  split; by rewrite ?heap_throwUnixException, ?pending_throwUnixException, ?Hp.
Qed.

Lemma same_view_ThrowIOException msg st st' :
  same_view st st' -> errno st = errno st' ->
  same_view (JNU_ThrowIOExceptionWithLastError msg st)
    (JNU_ThrowIOExceptionWithLastError msg st').
Proof.
  intros [Hh Hp] He. unfold JNU_ThrowIOExceptionWithLastError, Throw.
  split; cbn; by rewrite ?He.
Qed.

Lemma same_view_SetField obj f v st st' :
  same_view st st' -> same_view (SetField obj f v st) (SetField obj f v st').
Proof. intros [Hh Hp]. split; cbn; by rewrite ?Hh. Qed.

Lemma same_view_copy_statx_attributes buf attrs st st' :
  same_view st st' ->
  same_view (copy_statx_attributes buf attrs st)
    (copy_statx_attributes buf attrs st').
Proof.
  intros H. unfold copy_statx_attributes, SetIntField, SetLongField.
  repeat apply same_view_SetField. exact H.
Qed.

Ltac same_view_step IH :=
  lazymatch goal with
  | |- outcome (_, _) = outcome (_, _) => apply outcome_same_view
  | |- same_view (throwUnixException _ _ _) (throwUnixException _ _ _) =>
      apply same_view_throwUnixException
  | |- same_view (JNU_ThrowIOExceptionWithLastError _ _)
         (JNU_ThrowIOExceptionWithLastError _ _) =>
      apply same_view_ThrowIOException
  | |- same_view (snd (poll_cancel _ _ _)) (snd (poll_cancel _ _ _)) =>
      apply same_view_poll_cancel
  | |- same_view (xfer_call _ _ _) (xfer_call _ _ _) =>
      apply same_view_after_call
  | |- outcome _ = outcome _ => apply IH
  end.

Lemma tier_B_uninterrupted env dst src cancel count k :
  forall st st', same_view st st' ->
  outcome (tier_B env dst src cancel count k st) =
  outcome (tier_B env dst src cancel count (uninterrupted k) st').
Proof.
  induction k as [|s k IH]; intros st st' Hv.
  - cbn [uninterrupted List.filter]. rewrite !tier_B_nil.
    by apply outcome_same_view.
  - rewrite tier_B_cons. cbn zeta. unfold uninterrupted. cbn [List.filter].
    fold (uninterrupted k). destruct (interrupted s) eqn:Hi; cbn [negb].
    + apply IH. by apply same_view_after_call_l.
    + rewrite tier_B_cons. cbn zeta. rewrite Hi.
      destruct (answer s) as [n|e] eqn:Ha.
      * rewrite (xfer_ret_success _ _ Ha).
        assert (H0 : (Z.of_N n <? 0) = false) by (apply Z.ltb_ge; lia).
        rewrite H0.
        repeat match goal with
          | |- context [if ?b then _ else _] => destruct b
          end; repeat same_view_step IH; assumption.
      * rewrite (xfer_ret_failure _ _ Ha).
        rewrite !(errno_xfer_call_failure _ _ _ _ Ha).
        change (-1 <? 0) with true. cbn iota.
        repeat match goal with
          | |- context [if ?b then _ else _] => destruct b
          end; repeat same_view_step IH; assumption.
Qed.

Lemma directCopy0_uninterrupted env g dst src cancel k :
  forall st st', same_view st st' ->
  outcome (directCopy0 env g dst src cancel k st) =
  outcome (directCopy0 env g dst src cancel (uninterrupted k) st').
Proof.
  destruct (my_copy_file_range_func g) eqn:Hg.
  - intros st st' Hv. rewrite !(directCopy0_no_copy_file_range _ _ _ _ _ _ _ Hg).
    by apply tier_B_uninterrupted.
  - induction k as [|s k IH]; intros st st' Hv.
    + cbn [uninterrupted List.filter]. rewrite !directCopy0_nil.
      by apply outcome_same_view.
    + rewrite (directCopy0_cons _ _ _ _ _ _ _ _ Hg). cbn zeta.
      unfold uninterrupted. cbn [List.filter]. fold (uninterrupted k).
      destruct (interrupted s) eqn:Hi; cbn [negb].
      * apply IH. by apply same_view_after_call_l.
      * rewrite (directCopy0_cons _ _ _ _ _ _ _ _ Hg). cbn zeta. rewrite Hi.
        destruct (answer s) as [n|e] eqn:Ha.
        -- rewrite (xfer_ret_success _ _ Ha).
           assert (H0 : (Z.of_N n <? 0) = false) by (apply Z.ltb_ge; lia).
           rewrite H0. cbn [andb].
           repeat match goal with
             | |- context [if ?b then _ else _] => destruct b
             end;
           try (apply tier_B_uninterrupted);
           repeat same_view_step IH; assumption.
        -- rewrite (xfer_ret_failure _ _ Ha).
           rewrite !(errno_xfer_call_failure _ _ _ _ Ha).
           change (-1 <? 0) with true. cbn [andb].
           repeat match goal with
             | |- context [if ?b then _ else _] => destruct b
             end;
           try (apply tier_B_uninterrupted);
           repeat same_view_step IH;
           first [assumption | by rewrite !(errno_xfer_call_failure _ _ _ _ Ha)].
Qed.

Lemma statx0_body env g path attrs follow_links k st :
  my_statx_func g = Resolved ->
  statx0 env g path attrs follow_links k st =
  statx_query_body (statx0_call path follow_links) attrs k st.
Proof. unfold statx0. by intros ->. Qed.

Lemma statxfd0_body env g fd attrs k st :
  my_statx_func g = Resolved ->
  statxfd0 env g fd attrs k st = statx_query_body (statxfd0_call fd) attrs k st.
Proof. unfold statxfd0. by intros ->. Qed.

Lemma statx_delivered_uninterrupted k :
  statx_delivered (statx_uninterrupted k) = statx_delivered k.
Proof.
  unfold statx_delivered, statx_uninterrupted.
  induction k as [|r k IH]; [reflexivity|]. cbn [List.filter List.find].
  destruct (statx_interrupted r) eqn:Hr; cbn [negb]; [exact IH|].
  cbn [List.find]. by rewrite Hr.
Qed.

Lemma statx_delivered_not_interrupted k r :
  statx_delivered k = Some r -> statx_interrupted r = false.
Proof.
  unfold statx_delivered. intros H. apply List.find_some in H as [_ H].
  by apply negb_true_iff.
Qed.

Lemma same_view_statx_retries c pre st :
  same_view (statx_retries c pre st) st.
Proof.
  unfold statx_retries. split; [apply heap_retries | apply pending_retries].
Qed.

Lemma same_view_sym st st' : same_view st st' -> same_view st' st.
Proof. intros [? ?]. by split. Qed.

Lemma same_view_trans st1 st2 st3 :
  same_view st1 st2 -> same_view st2 st3 -> same_view st1 st3.
Proof. intros [? ?] [? ?]. split; congruence. Qed.

Lemma statx_query_body_uninterrupted c attrs k st :
  outcome (statx_query_body c attrs k st) =
  outcome (statx_query_body c attrs (statx_uninterrupted k) st).
Proof.
  pose proof (statx_query_cases c attrs k st) as H1.
  pose proof (statx_query_cases c attrs (statx_uninterrupted k) st) as H2.
  rewrite statx_delivered_uninterrupted in H2. unfold statx_query_body.
  assert (Hv : forall pre pre' r,
    same_view (statx_call c r (statx_retries c pre st))
      (statx_call c r (statx_retries c pre' st))).
  { intros. apply same_view_after_call.
    eapply same_view_trans; [apply same_view_statx_retries|].
    apply same_view_sym, same_view_statx_retries. }
  destruct (statx_delivered k) as [r|].
  - destruct H1 as (pre & _ & _ & _ & ->), H2 as (pre' & _ & _ & _ & ->).
    cbn zeta. destruct r as [buf|e]; apply outcome_same_view.
    + apply same_view_copy_statx_attributes, Hv.
    + apply Hv.
  - rewrite H1, H2. apply outcome_same_view.
    eapply same_view_trans; [apply same_view_statx_retries|].
    apply same_view_sym, same_view_statx_retries.
Qed.

Lemma statx_query_never_eintr g attrs k st result :
  statx_query_effect g attrs k st result -> fst result <> Some EINTR.
Proof.
  unfold statx_query_effect. destruct (my_statx_func g).
  - intros [-> _]. discriminate.
  - destruct (statx_delivered k) as [[buf|e]|] eqn:Hd.
    + intros [-> _]. discriminate.
    + intros [-> _]. apply statx_delivered_not_interrupted in Hd.
      unfold statx_interrupted, eintr in Hd. cbn [statx_err] in Hd.
      apply Z.eqb_neq in Hd. congruence.
    + intros [-> _]. discriminate.
Qed.

Lemma surfaces_eintr_throwUnixException env e st :
  e <> EINTR ->
  surfaces_eintr (pending st) = false ->
  surfaces_eintr (pending (throwUnixException env e st)) = false.
Proof.
  intros He Hst. rewrite pending_throwUnixException.
  destruct (can_allocate env); [|exact Hst]. cbn. by apply Z.eqb_neq.
Qed.

Lemma not_interrupted_failure s e :
  answer s = Failure e -> interrupted s = false -> Z.pos e <> EINTR.
Proof.
  intros Ha Hi. rewrite (interrupted_failure _ _ Ha) in Hi. by apply Z.eqb_neq.
Qed.

Ltac no_eintr_step IH :=
  lazymatch goal with
  | |- surfaces_eintr (pending (throwUnixException _ _ _)) = false =>
      apply surfaces_eintr_throwUnixException; [first [discriminate|assumption]|]
  | |- surfaces_eintr (pending (snd (poll_cancel _ _ _))) = false =>
      rewrite pending_poll_cancel
  | |- surfaces_eintr (pending (xfer_call _ _ _)) = false =>
      unfold xfer_call; rewrite pending_after_call
  | |- surfaces_eintr (pending (snd _)) = false => apply IH
  end.

Lemma tier_B_no_eintr env dst src cancel count k :
  forall st, surfaces_eintr (pending st) = false ->
  surfaces_eintr (pending (snd (tier_B env dst src cancel count k st))) = false.
Proof.
  induction k as [|s k IH]; intros st Hst; [by rewrite tier_B_nil|].
  rewrite tier_B_cons. cbn zeta. destruct (interrupted s) eqn:Hi.
  - apply IH. unfold xfer_call. by rewrite pending_after_call.
  - destruct (answer s) as [n|e] eqn:Ha.
    + rewrite (xfer_ret_success _ _ Ha).
      assert (H0 : (Z.of_N n <? 0) = false) by (apply Z.ltb_ge; lia).
      rewrite H0.
      repeat match goal with
        | |- context [if ?b then _ else _] => destruct b
        end; cbn [snd]; repeat no_eintr_step IH; assumption.
    + pose proof (not_interrupted_failure _ _ Ha Hi) as Hne.
      rewrite (xfer_ret_failure _ _ Ha), !(errno_xfer_call_failure _ _ _ _ Ha).
      change (-1 <? 0) with true. cbn iota.
      repeat match goal with
        | |- context [if ?b then _ else _] => destruct b
        end; cbn [snd]; repeat no_eintr_step IH; assumption.
Qed.

Lemma directCopy0_no_eintr env g dst src cancel k :
  forall st, surfaces_eintr (pending st) = false ->
  surfaces_eintr (pending (snd (directCopy0 env g dst src cancel k st))) = false.
Proof.
  destruct (my_copy_file_range_func g) eqn:Hg.
  - intros st Hst. rewrite (directCopy0_no_copy_file_range _ _ _ _ _ _ _ Hg).
    by apply tier_B_no_eintr.
  - induction k as [|s k IH]; intros st Hst; [by rewrite directCopy0_nil|].
    rewrite (directCopy0_cons _ _ _ _ _ _ _ _ Hg). cbn zeta.
    destruct (interrupted s) eqn:Hi.
    + apply IH. unfold xfer_call. by rewrite pending_after_call.
    + destruct (answer s) as [n|e] eqn:Ha.
      * rewrite (xfer_ret_success _ _ Ha).
        assert (H0 : (Z.of_N n <? 0) = false) by (apply Z.ltb_ge; lia).
        rewrite H0. cbn [andb].
        repeat match goal with
          | |- context [if ?b then _ else _] => destruct b
          end; cbn [snd];
        try (apply tier_B_no_eintr); repeat no_eintr_step IH; assumption.
      * pose proof (not_interrupted_failure _ _ Ha Hi) as Hne.
        rewrite (xfer_ret_failure _ _ Ha), !(errno_xfer_call_failure _ _ _ _ Ha).
        change (-1 <? 0) with true. cbn [andb].
        repeat match goal with
          | |- context [if ?b then _ else _] => destruct b
          end; cbn [snd];
        try (apply tier_B_no_eintr); repeat no_eintr_step IH;
        try assumption.
        unfold JNU_ThrowIOExceptionWithLastError. cbn [pending Throw surfaces_eintr].
        rewrite (errno_xfer_call_failure _ _ _ _ Ha). by apply Z.eqb_neq.
Qed.

(** C7.  A kernel call answered with EINTR is issued again, the same call
    with the same arguments, in statx0, statxfd0 and both loops of
    directCopy0.  So taking the interrupted answers out of what the kernel
    says changes nothing of what the caller sees (result, heap, pending
    exception), and EINTR is never handed to the caller: the queries do
    not return it and directCopy0 throws no exception that carries it. *)
Theorem C7_interrupted_calls_restart :
  (forall c r k st,
     statx_interrupted r = true ->
     RESTARTABLE statx_ret statx_err c (r :: k) st =
     RESTARTABLE statx_ret statx_err c k (statx_call c r st))
  /\ (forall c s k st,
        interrupted s = true ->
        RESTARTABLE xfer_ret xfer_err c (s :: k) st =
        RESTARTABLE xfer_ret xfer_err c k (xfer_call c s st))
  /\ (forall env g path attrs follow_links k st,
        outcome (statx0 env g path attrs follow_links k st) =
        outcome (statx0 env g path attrs follow_links (statx_uninterrupted k) st))
  /\ (forall env g fd attrs k st,
        outcome (statxfd0 env g fd attrs k st) =
        outcome (statxfd0 env g fd attrs (statx_uninterrupted k) st))
  /\ (forall env g dst src cancel k st,
        outcome (directCopy0 env g dst src cancel k st) =
        outcome (directCopy0 env g dst src cancel (uninterrupted k) st))
  /\ (forall env g path attrs follow_links k st,
        fst (statx0 env g path attrs follow_links k st) <> Some EINTR)
  /\ (forall env g fd attrs k st,
        fst (statxfd0 env g fd attrs k st) <> Some EINTR)
  /\ (forall env g dst src cancel k st,
        surfaces_eintr (pending st) = false ->
        surfaces_eintr
          (pending (snd (directCopy0 env g dst src cancel k st))) = false).
Proof.
  repeat apply conj.
  - intros c r k st Hr. rewrite (RESTARTABLE_cons _ _ statx_ret_err).
    fold statx_interrupted. by rewrite Hr.
  - intros c s k st Hs. rewrite (RESTARTABLE_cons _ _ xfer_ret_err).
    fold interrupted. by rewrite Hs.
  - intros. destruct (my_statx_func g) eqn:Hg.
    + unfold statx0. by rewrite Hg.
    + rewrite !(statx0_body _ _ _ _ _ _ _ Hg).
      apply statx_query_body_uninterrupted.
  - intros. destruct (my_statx_func g) eqn:Hg.
    + unfold statxfd0. by rewrite Hg.
    + rewrite !(statxfd0_body _ _ _ _ _ _ Hg).
      apply statx_query_body_uninterrupted.
  - intros. apply directCopy0_uninterrupted, same_view_refl.
  - intros. eapply statx_query_never_eintr, statx0_effect.
  - intros. eapply statx_query_never_eintr, statxfd0_effect.
  - intros. by apply directCopy0_no_eintr.
Qed.

Lemma C7_interrupted_calls_restart_witness :
  interrupted (fails 4 0) = true
  /\ RESTARTABLE xfer_ret xfer_err (cfr_call 3 4 0) [fails 4 0; chunk 7 0] state0
     = (Some (chunk 7 0, []),
        xfer_call (cfr_call 3 4 0) (chunk 7 0)
          (xfer_call (cfr_call 3 4 0) (fails 4 0) state0))
  /\ surfaces_eintr (pending state0) = false
  /\ surfaces_eintr
       (pending (snd (directCopy0 env_ok caps_all 3 4 0
                        [fails 4 0; fails 5 0] state0))) = false
  /\ outcome (directCopy0 env_ok caps_all 3 4 0
                [fails 4 0; chunk 7 0; fails 4 0; chunk 0 0] state0)
     = outcome (directCopy0 env_ok caps_all 3 4 0 [chunk 7 0; chunk 0 0] state0).
Proof.
  destruct C7_interrupted_calls_restart
    as (_ & Hx & _ & _ & Hinv & _ & _ & Hno).
  split; [reflexivity|]. split.
  - rewrite (Hx (cfr_call 3 4 0) (fails 4 0) [chunk 7 0] state0 eq_refl).
    reflexivity.
  - split; [reflexivity|]. split.
    + exact (Hno env_ok caps_all 3 4 0 [fails 4 0; fails 5 0] state0 eq_refl).
    + exact (Hinv env_ok caps_all 3 4 0
               [fails 4 0; chunk 7 0; fails 4 0; chunk 0 0] state0).
Defined.

Lemma C9_symlink_policy_witness :
  exists n,
    syscalls_of (trace (snd (statx0 env_ok caps_all "/tmp/l" sample_attrs
                               JNI_FALSE [Failure 4; Success sample_statx]
                               state1)))
    = syscalls_of (trace state1)
      ++ replicate n (sys_statx AT_FDCWD "/tmp/l"
                        (Z.lor AT_STATX_SYNC_AS_STAT AT_SYMLINK_NOFOLLOW)
                        STATX_ALL)
    /\ (0 < n)%nat.
Proof.
  destruct (C9_symlink_policy env_ok caps_all "/tmp/l" sample_attrs JNI_FALSE
              [Failure 4; Success sample_statx] state1)
    as ((n & Hn & Hpos) & _).
  exists n. split; [exact Hn|]. apply Hpos; [reflexivity | discriminate].
Defined.

(** ** Sample queries *)

(** A successful query by path fills the attributes: the mode as
    reported, and the device number put together from major 8, minor 1. *)
Example statx0_fills_attributes :
  let result :=
    statx0 env_ok caps_all "/tmp/f" sample_attrs JNI_TRUE
      [Failure 4; Success sample_statx; Failure 2] state1 in
  fst result = Some 0
  /\ (heap (snd result) !! sample_attrs) ≫= (.!! attrs_st_mode) = Some 0x81a4
  /\ (heap (snd result) !! sample_attrs) ≫= (.!! attrs_st_dev) = Some 0x801
  /\ (heap (snd result) !! sample_attrs) ≫= (.!! attrs_st_size) = Some 5
  /\ length (field_writes (snd result)) = 16%nat.
Proof. repeat split; vm_compute; reflexivity. Qed.

(** A failed query by descriptor returns the error number and writes
    nothing. *)
Example statxfd0_failure_writes_nothing :
  statxfd0 env_ok caps_all 5 sample_attrs [Failure 4; Failure 9] state1
  = (Some 9,
     statx_call (statxfd0_call 5) (Failure 9)
       (statx_call (statxfd0_call 5) (Failure 4) state1))
  /\ heap (snd (statxfd0 env_ok caps_all 5 sample_attrs
                  [Failure 4; Failure 9] state1)) = heap state1.
Proof. split; reflexivity. Qed.

(** A copy without cancellation handle: copy_file_range is refused across
    devices and sendfile64 moves the bytes, every call asking for
    0x7ffff000 bytes. *)
Example directCopy0_falls_back :
  let result :=
    directCopy0 env_ok caps_all 3 4 0
      [fails 18 0; chunk 9 0; fails 4 0; chunk 0 0] state0 in
  fst result = Some OK
  /\ pending (snd result) = None
  /\ syscalls_of (trace (snd result))
     = [sys_copy_file_range 4 None 3 None 0x7ffff000 0;
        sys_sendfile64 3 4 None 0x7ffff000;
        sys_sendfile64 3 4 None 0x7ffff000;
        sys_sendfile64 3 4 None 0x7ffff000].
Proof. repeat split; reflexivity. Qed.

(** * Initialisation *)

Lemma statics_eq (s1 s2 : statics) :
  fieldIDs s1 = fieldIDs s2 ->
  my_statx_func (table s1) = my_statx_func (table s2) ->
  my_copy_file_range_func (table s1) = my_copy_file_range_func (table s2) ->
  supports_statx s1 = supports_statx s2 -> s1 = s2.
Proof.
  destruct s1 as [f1 [x1 c1] b1], s2 as [f2 [x2 c2] b2]. cbn.
  by intros -> -> -> ->.
Qed.

Lemma kept_or_set_id {A} (c : statics -> A) : kept_or_set c (fun s => s).
Proof. by left. Qed.

Lemma kept_or_set_keep {A} (c : statics -> A) (g f : statics -> statics) :
  (forall s, c (g s) = c s) -> kept_or_set c f ->
  kept_or_set c (fun s => g (f s)).
Proof.
  intros Hg [Hf|Hf]; [left|right]; intros; rewrite !Hg; apply Hf.
Qed.

Lemma kept_or_set_const {A} (c : statics -> A) (g f : statics -> statics) a :
  (forall s, c (g s) = a) -> kept_or_set c (fun s => g (f s)).
Proof. intros Hg. right. intros. by rewrite !Hg. Qed.

Lemma kept_or_set_idempotent f :
  (forall i, kept_or_set (fun s => fieldIDs s !! i) f) ->
  kept_or_set (fun s => my_statx_func (table s)) f ->
  kept_or_set (fun s => my_copy_file_range_func (table s)) f ->
  kept_or_set supports_statx f ->
  forall s, f (f s) = f s.
Proof.
  intros Hf Hx Hc Hb s.
  assert (H : forall A (c : statics -> A), kept_or_set c f -> c (f (f s)) = c (f s)).
  { intros A c [H|H]; [apply H | apply H]. }
  apply statics_eq.
  - apply map_eq. intros i. apply (H _ _ (Hf i)).
  - apply (H _ _ Hx).
  - apply (H _ _ Hc).
  - apply (H _ _ Hb).
Qed.

Lemma lookup_assign var v s i :
  fieldIDs (assign var v s) !! i =
  if decide (var = i) then v else fieldIDs s !! i.
Proof.
  unfold assign. cbn [fieldIDs]. destruct v.
  - apply lookup_insert.
  - rewrite lookup_delete. by case_decide.
Qed.

(** A walk through init, check by check in the order of the source;
    [leaf] is run where init returns. *)
Ltac init_check b leaf := destruct b; cbv beta iota zeta; [|leaf].

Ltac init_walk rt leaf :=
  unfold init, FindClass, GetFieldID, GetStaticFieldID;
  cbv beta iota zeta;
  init_check (has_class rt "sun/nio/fs/UnixMountEntry") leaf;
  init_check (has_field rt "sun/nio/fs/UnixMountEntry" "name" "[B") leaf;
  init_check (has_field rt "sun/nio/fs/UnixMountEntry" "dir" "[B") leaf;
  init_check (has_field rt "sun/nio/fs/UnixMountEntry" "fstype" "[B") leaf;
  init_check (has_field rt "sun/nio/fs/UnixMountEntry" "opts" "[B") leaf;
  init_check (has_class rt "sun/nio/fs/LinuxNativeDispatcher") leaf;
  init_check (has_static_field rt "sun/nio/fs/LinuxNativeDispatcher"
                "supports_statx" "Z") leaf;
  cbn [my_statx_func table set_my_statx_func];
  destruct (dlsym rt "statx"); [leaf|];
  init_check (has_class rt "sun/nio/fs/LinuxFileAttributes") leaf;
  init_check (has_field rt "sun/nio/fs/LinuxFileAttributes"
                "stx_birthtime_nsec" "J") leaf;
  init_check (has_class rt "sun/nio/fs/UnixFileAttributes") leaf;
  init_check (has_field rt "sun/nio/fs/UnixFileAttributes" "st_mode" "I") leaf;
  init_check (has_field rt "sun/nio/fs/UnixFileAttributes" "st_ino" "J") leaf;
  init_check (has_field rt "sun/nio/fs/UnixFileAttributes" "st_dev" "J") leaf;
  init_check (has_field rt "sun/nio/fs/UnixFileAttributes" "st_rdev" "J") leaf;
  init_check (has_field rt "sun/nio/fs/UnixFileAttributes" "st_nlink" "I") leaf;
  init_check (has_field rt "sun/nio/fs/UnixFileAttributes" "st_uid" "I") leaf;
  init_check (has_field rt "sun/nio/fs/UnixFileAttributes" "st_gid" "I") leaf;
  init_check (has_field rt "sun/nio/fs/UnixFileAttributes" "st_size" "J") leaf;
  init_check (has_field rt "sun/nio/fs/UnixFileAttributes" "st_atime_sec" "J")
    leaf;
  init_check (has_field rt "sun/nio/fs/UnixFileAttributes" "st_atime_nsec" "J")
    leaf;
  init_check (has_field rt "sun/nio/fs/UnixFileAttributes" "st_mtime_sec" "J")
    leaf;
  init_check (has_field rt "sun/nio/fs/UnixFileAttributes" "st_mtime_nsec" "J")
    leaf;
  init_check (has_field rt "sun/nio/fs/UnixFileAttributes" "st_ctime_sec" "J")
    leaf;
  init_check (has_field rt "sun/nio/fs/UnixFileAttributes" "st_ctime_nsec" "J")
    leaf;
  init_check (has_field rt "sun/nio/fs/UnixFileAttributes" "st_birthtime_sec"
                "J") leaf;
  leaf.

Ltac statics_projections :=
  cbv beta iota delta
    [andb assign table fieldIDs my_statx_func my_copy_file_range_func
     supports_statx set_my_statx_func set_my_copy_file_range_func
     SetStaticBooleanField].

Lemma kept_or_set_assign i var v (f : statics -> statics) :
  kept_or_set (fun s => fieldIDs s !! i) f ->
  kept_or_set (fun s => fieldIDs s !! i) (fun s => assign var v (f s)).
Proof.
  intros Hf. destruct (decide (var = i)) as [<-|Hne].
  - apply (kept_or_set_const _ (assign var v) f v).
    intros. rewrite lookup_assign. by rewrite decide_True.
  - apply (kept_or_set_keep _ (assign var v) f); [|exact Hf].
    intros. rewrite lookup_assign. by rewrite decide_False.
Qed.

Lemma kept_or_set_after_assign {A} (c : statics -> A) var v
    (f : statics -> statics) :
  (forall s, c (assign var v s) = c s) ->
  kept_or_set c f -> kept_or_set c (fun s => assign var v (f s)).
Proof. apply kept_or_set_keep. Qed.

Lemma kept_or_set_after_statx {A} (c : statics -> A) x
    (f : statics -> statics) :
  (forall s, c (set_my_statx_func x s) = c s) ->
  kept_or_set c f -> kept_or_set c (fun s => set_my_statx_func x (f s)).
Proof. apply kept_or_set_keep. Qed.

Lemma kept_or_set_after_copy_file_range {A} (c : statics -> A) x
    (f : statics -> statics) :
  (forall s, c (set_my_copy_file_range_func x s) = c s) ->
  kept_or_set c f ->
  kept_or_set c (fun s => set_my_copy_file_range_func x (f s)).
Proof. apply kept_or_set_keep. Qed.

Lemma kept_or_set_after_flag {A} (c : statics -> A) b
    (f : statics -> statics) :
  (forall s, c (SetStaticBooleanField b s) = c s) ->
  kept_or_set c f -> kept_or_set c (fun s => SetStaticBooleanField b (f s)).
Proof. apply kept_or_set_keep. Qed.

Lemma kept_or_set_by_statx {A} (c : statics -> A) x a
    (f : statics -> statics) :
  (forall s, c (set_my_statx_func x s) = a) ->
  kept_or_set c (fun s => set_my_statx_func x (f s)).
Proof. apply kept_or_set_const. Qed.

Lemma kept_or_set_by_copy_file_range {A} (c : statics -> A) x a
    (f : statics -> statics) :
  (forall s, c (set_my_copy_file_range_func x s) = a) ->
  kept_or_set c (fun s => set_my_copy_file_range_func x (f s)).
Proof. apply kept_or_set_const. Qed.

Lemma kept_or_set_by_flag {A} (c : statics -> A) b a
    (f : statics -> statics) :
  (forall s, c (SetStaticBooleanField b s) = a) ->
  kept_or_set c (fun s => SetStaticBooleanField b (f s)).
Proof. apply kept_or_set_const. Qed.

Ltac statics_component :=
  intros;
  cbn [my_statx_func my_copy_file_range_func table supports_statx fieldIDs
       set_my_statx_func set_my_copy_file_range_func SetStaticBooleanField
       assign];
  reflexivity.

Ltac kept_or_set_leaf :=
  repeat first
    [ apply kept_or_set_id
    | apply kept_or_set_assign
    | eapply kept_or_set_by_statx; statics_component
    | eapply kept_or_set_by_copy_file_range; statics_component
    | eapply kept_or_set_by_flag; statics_component
    | apply kept_or_set_after_assign; [statics_component|]
    | apply kept_or_set_after_statx; [statics_component|]
    | apply kept_or_set_after_copy_file_range; [statics_component|]
    | apply kept_or_set_after_flag; [statics_component|] ].

Lemma init_field_kept_or_set rt i :
  kept_or_set (fun s => fieldIDs s !! i) (init rt).
Proof. init_walk rt ltac:(idtac; kept_or_set_leaf). Qed.

Lemma init_statx_kept_or_set rt :
  kept_or_set (fun s => my_statx_func (table s)) (init rt).
Proof. init_walk rt ltac:(idtac; kept_or_set_leaf). Qed.

Lemma init_copy_file_range_kept_or_set rt :
  kept_or_set (fun s => my_copy_file_range_func (table s)) (init rt).
Proof. init_walk rt ltac:(idtac; kept_or_set_leaf). Qed.

Lemma init_flag_kept_or_set rt : kept_or_set supports_statx (init rt).
Proof. init_walk rt ltac:(idtac; kept_or_set_leaf). Qed.

Theorem init_idempotent rt s : init rt (init rt s) = init rt s.
Proof.
  apply kept_or_set_idempotent.
  - apply init_field_kept_or_set.
  - apply init_statx_kept_or_set.
  - apply init_copy_file_range_kept_or_set.
  - apply init_flag_kept_or_set.
Qed.

Lemma init_probe_facts rt s :
  my_statx_func (table (init rt s))
  = (if mount_lookups_ok rt then dlsym rt "statx"
     else my_statx_func (table s))
  /\ my_copy_file_range_func (table (init rt s))
     = (if init_completes rt then dlsym rt "copy_file_range"
        else my_copy_file_range_func (table s))
  /\ supports_statx (init rt s)
     = (if mount_lookups_ok rt
        then match dlsym rt "statx" with
             | Resolved => true
             | NULL => supports_statx s
             end
        else supports_statx s).
Proof.
  unfold init_completes, mount_lookups_ok, attrs_lookups_ok.
  init_walk rt ltac:(idtac; statics_projections; repeat split; reflexivity).
Qed.

Lemma init_complete_run rt s :
  init_completes rt = true -> init rt s = init_complete rt s.
Proof.
  unfold init_completes, mount_lookups_ok, attrs_lookups_ok, init_complete.
  init_walk rt ltac:(idtac;
    let H := fresh in
    intros H;
    first [ cbv beta iota delta [andb] in H; discriminate H
          | reflexivity ]).
Qed.

Lemma fieldIDs_set_my_statx_func x s :
  fieldIDs (set_my_statx_func x s) = fieldIDs s.
Proof. reflexivity. Qed.
Lemma fieldIDs_set_my_copy_file_range_func x s :
  fieldIDs (set_my_copy_file_range_func x s) = fieldIDs s.
Proof. reflexivity. Qed.
Lemma fieldIDs_SetStaticBooleanField b s :
  fieldIDs (SetStaticBooleanField b s) = fieldIDs s.
Proof. reflexivity. Qed.

Ltac lookup_static :=
  cbn [assign_all foldl mount_statics attrs_statics fst snd];
  repeat first
    [ rewrite lookup_assign
    | rewrite fieldIDs_set_my_statx_func
    | rewrite fieldIDs_set_my_copy_file_range_func
    | rewrite fieldIDs_SetStaticBooleanField ];
  reflexivity.

Lemma init_field_ids rt s :
  init_completes rt = true ->
  fieldIDs (init rt s) !! "entry_name" = Some entry_name
  /\ fieldIDs (init rt s) !! "entry_dir" = Some entry_dir
  /\ fieldIDs (init rt s) !! "entry_fstype" = Some entry_fstype
  /\ fieldIDs (init rt s) !! "entry_options" = Some entry_options
  /\ (dlsym rt "statx" = Resolved ->
      Forall (fun p => fieldIDs (init rt s) !! p.1 = Some p.2) attrs_statics).
Proof.
  intros H. rewrite (init_complete_run _ _ H). unfold init_complete.
  destruct (dlsym rt "statx").
  - (repeat split; try lookup_static). discriminate.
  - (repeat split; try lookup_static).
    (unfold attrs_statics at 1; repeat constructor; lookup_static).
Qed.

(** Run twice against the same run time, init leaves the statics as the
    first run left them. *)
Theorem X_init_idempotent rt s : init rt (init rt s) = init rt s.
Proof. apply init_idempotent. Qed.

(** What init leaves in the capability table and in the Java flag
    supports_statx.  statx is probed once the seven lookups before it
    have succeeded; copy_file_range is probed only when init reaches its
    last line, so a failed lookup of an attribute field leaves it as it
    was, whatever the linker would resolve. *)
Theorem X_init_capability_table rt s :
  my_statx_func (table (init rt s))
  = (if mount_lookups_ok rt then dlsym rt "statx"
     else my_statx_func (table s))
  /\ my_copy_file_range_func (table (init rt s))
     = (if init_completes rt then dlsym rt "copy_file_range"
        else my_copy_file_range_func (table s))
  /\ supports_statx (init rt s)
     = (if mount_lookups_ok rt
        then match dlsym rt "statx" with
             | Resolved => true
             | NULL => supports_statx s
             end
        else supports_statx s).
Proof. apply init_probe_facts. Qed.

(** From statics that were never set, Java is told that statx is
    supported exactly when the native pointer is set. *)
Theorem X_init_flag_matches_pointer rt s :
  supports_statx s = false ->
  my_statx_func (table s) = NULL ->
  (supports_statx (init rt s) = true
   <-> my_statx_func (table (init rt s)) = Resolved).
Proof.
  intros Hb Hx. destruct (init_probe_facts rt s) as (-> & _ & ->).
  rewrite Hb, Hx. destruct (mount_lookups_ok rt), (dlsym rt "statx"); done.
Qed.

Lemma X_init_flag_matches_pointer_witness :
  supports_statx statics0 = false
  /\ my_statx_func (table statics0) = NULL
  /\ (supports_statx (init runtime_without_st_gid statics0) = true
      <-> my_statx_func (table (init runtime_without_st_gid statics0))
          = Resolved).
Proof.
  split; [reflexivity|]. split; [reflexivity|].
  apply (X_init_flag_matches_pointer runtime_without_st_gid statics0);
    reflexivity.
Defined.

(** When every lookup succeeds, init sets the five mount statics, both
    function pointers as the linker resolves them and, if statx is found,
    the flag and the sixteen attribute statics; each static then holds
    the field id that getmntent0 and copy_statx_attributes write
    through. *)
Theorem X_init_complete rt s :
  init_completes rt = true ->
  init rt s = init_complete rt s
  /\ fieldIDs (init rt s) !! "entry_name" = Some entry_name
  /\ fieldIDs (init rt s) !! "entry_dir" = Some entry_dir
  /\ fieldIDs (init rt s) !! "entry_fstype" = Some entry_fstype
  /\ fieldIDs (init rt s) !! "entry_options" = Some entry_options
  /\ (dlsym rt "statx" = Resolved ->
      Forall (fun p => fieldIDs (init rt s) !! p.1 = Some p.2) attrs_statics).
Proof.
  intros H. split; [by apply init_complete_run | by apply init_field_ids].
Qed.

Lemma X_init_complete_witness :
  init_completes full_runtime = true
  /\ fieldIDs (init full_runtime statics0) !! "attrs_st_dev" = Some attrs_st_dev
  /\ table (init full_runtime statics0) = caps_all.
Proof.
  split; [reflexivity|].
  destruct (X_init_complete full_runtime statics0 eq_refl) as (-> & _).
  split; reflexivity.
Defined.

(** * The mount table *)



Lemma to_jint_small z : 0 <= z < 2 ^ 31 -> to_jint z = z.
Proof.
  intros Hz. unfold to_jint, wrap_signed.
  change (2 ^ (32 - 1)) with 2147483648. change (2 ^ 32) with 4294967296.
  change (2 ^ 31) with 2147483648 in Hz.
  rewrite Z.mod_small by lia. lia.
Qed.

Lemma strlen_nonneg s : 0 <= strlen s.
Proof. unfold strlen. lia. Qed.

(** A fresh array of the length of the string, filled from the string,
    is the string. *)
Lemma new_array_filled room (s : cstring) :
  strlen s < 2 ^ 31 ->
  match NewByteArray room (to_jint (strlen s)) with
  | Some bytes =>
      room = true
      /\ SetByteArrayRegion bytes 0 (to_jint (strlen s)) s = s
  | None => room = false
  end.
Proof.
  intros Hs. pose proof (strlen_nonneg s) as H0.
  rewrite to_jint_small by lia. unfold NewByteArray.
  destruct room; cbn [andb]; [|reflexivity].
  assert (Hle : (0 <=? strlen s) = true) by (apply Z.leb_le; lia).
  rewrite Hle. split; [reflexivity|].
  unfold SetByteArrayRegion, strlen. rewrite Z.add_0_l, !Nat2Z.id.
  cbn [Z.to_nat take app].
  rewrite firstn_all, drop_ge by (rewrite length_replicate; lia).
  apply app_nil_r.
Qed.

Lemma getmntent0_cons m rest room entry :
  fits_jsize m ->
  getmntent0 (m :: rest) room entry =
  match first_refused room with
  | Some i => (-1, rest, written_before i m entry)
  | None => (0, rest, written_before 4 m entry)
  end.
Proof.
  intros (H1 & H2 & H3 & H4). unfold getmntent0, first_refused.
  cbn [getmntent_r List.find].
  pose proof (new_array_filled (room 0%nat) _ H1) as F1.
  pose proof (new_array_filled (room 1%nat) _ H2) as F2.
  pose proof (new_array_filled (room 2%nat) _ H3) as F3.
  pose proof (new_array_filled (room 3%nat) _ H4) as F4.
  destruct (NewByteArray (room 0%nat) _); [destruct F1 as [-> ->]|by rewrite F1].
  destruct (NewByteArray (room 1%nat) _); [destruct F2 as [-> ->]|by rewrite F2].
  destruct (NewByteArray (room 2%nat) _); [destruct F3 as [-> ->]|by rewrite F3].
  destruct (NewByteArray (room 3%nat) _); [destruct F4 as [-> ->]|by rewrite F4].
  reflexivity.
Qed.

(** What one getmntent0 call does.  At the end of the table it returns -1
    and leaves the entry object alone.  Otherwise the entry is taken off
    the stream, and its four strings are stored in the fields name, dir,
    fstype and opts in this order until the JVM refuses an array: with no
    refusal the call returns 0 and all four fields hold the strings;
    with a refusal it returns -1, the same value as at the end of the
    table, with the fields before the refusal already overwritten and
    the entry gone from the stream. *)
Theorem X_getmntent0 m rest room entry :
  fits_jsize m ->
  getmntent0 [] room entry = (-1, [], entry)
  /\ getmntent0 (m :: rest) room entry =
     match first_refused room with
     | Some i => (-1, rest, written_before i m entry)
     | None => (0, rest, written_before 4 m entry)
     end.
Proof. intros Hm. split; [reflexivity|]. by apply getmntent0_cons. Qed.

Lemma X_getmntent0_witness :
  fits_jsize sample_mntent
  /\ getmntent0 [sample_mntent] (fun i => negb (i =? 2)%nat) ∅
     = (-1, [],
        {[ entry_name := mnt_fsname sample_mntent;
           entry_dir := mnt_dir sample_mntent ]}).
Proof.
  assert (H : fits_jsize sample_mntent) by (repeat split; reflexivity).
  split; [exact H|].
  destruct (X_getmntent0 sample_mntent [] (fun i => negb (i =? 2)%nat) ∅ H)
    as [_ ->].
  vm_compute. reflexivity.
Defined.

(** After a getmntent0 call that returns 0 the entry object holds the
    four strings of the mount entry, each in its own field, and its
    other fields are as before. *)
Theorem X_getmntent0_fields m rest room entry :
  fits_jsize m ->
  (getmntent0 (m :: rest) room entry).1.1 = 0 ->
  let entry' := (getmntent0 (m :: rest) room entry).2 in
  entry' !! entry_name = Some (mnt_fsname m)
  /\ entry' !! entry_dir = Some (mnt_dir m)
  /\ entry' !! entry_fstype = Some (mnt_type m)
  /\ entry' !! entry_options = Some (mnt_opts m)
  /\ (forall f, f <> entry_name -> f <> entry_dir -> f <> entry_fstype ->
                f <> entry_options -> entry' !! f = entry !! f)
  /\ (getmntent0 (m :: rest) room entry).1.2 = rest.
Proof.
  intros Hm. rewrite (getmntent0_cons m rest room entry Hm).
  destruct (first_refused room); [discriminate|]. intros _. cbn zeta.
  cbn [fst snd written_before take foldl].
  unfold SetObjectField, entry_name, entry_dir, entry_fstype, entry_options.
  do 4 (split; [by simplify_map_eq|]).
  split; [|reflexivity].
  intros f ? ? ? ?. by rewrite !lookup_insert_ne.
Qed.

Lemma X_getmntent0_fields_witness :
  fits_jsize sample_mntent
  /\ (getmntent0 [sample_mntent] (fun _ => true) ∅).1.1 = 0
  /\ (getmntent0 [sample_mntent] (fun _ => true) ∅).2 !! entry_fstype
     = Some (mnt_type sample_mntent).
Proof.
  assert (H : fits_jsize sample_mntent) by (repeat split; reflexivity).
  split; [exact H|]. split; [reflexivity|].
  apply (X_getmntent0_fields sample_mntent [] (fun _ => true) ∅ H eq_refl).
Defined.

(** * The attributes object *)














(** * Queries by descriptor *)

(** Every statx call statxfd0 issues names the descriptor as directory,
    the empty path and the mask STATX_ALL, with the flag AT_EMPTY_PATH
    set and AT_SYMLINK_NOFOLLOW clear; with statx resolved and an answer
    at hand at least one such call is issued, and with statx unavailable
    none. *)
Theorem X_statxfd0_call env g fd attrs k st :
  (exists n,
     syscalls_of (trace (snd (statxfd0 env g fd attrs k st)))
     = syscalls_of (trace st)
       ++ replicate n (sys_statx fd "" AT_EMPTY_PATH STATX_ALL)
     /\ (my_statx_func g = Resolved -> k <> [] -> (0 < n)%nat)
     /\ (my_statx_func g = NULL -> n = 0%nat))
  /\ Z.testbit AT_EMPTY_PATH 12 = true
  /\ Z.land AT_EMPTY_PATH AT_SYMLINK_NOFOLLOW = 0.
Proof.
  split; [|split; reflexivity].
  apply (statx_query_calls g (statxfd0_call fd) attrs k st
           (statxfd0 env g fd attrs k st));
    unfold statxfd0; by intros ->.
Qed.

Lemma same_view_statx_calls c c' r pre pre' st :
  same_view (statx_call c r (statx_retries c pre st))
    (statx_call c' r (statx_retries c' pre' st)).
Proof.
  unfold statx_call. apply same_view_after_call_l, same_view_sym.
  apply same_view_after_call_l.
  eapply same_view_trans; [apply same_view_statx_retries|].
  apply same_view_sym, same_view_statx_retries.
Qed.

Lemma statx_query_body_any_call c c' attrs k st :
  outcome (statx_query_body c attrs k st) =
  outcome (statx_query_body c' attrs k st).
Proof.
  pose proof (statx_query_cases c attrs k st) as H1.
  pose proof (statx_query_cases c' attrs k st) as H2.
  unfold statx_query_body. destruct (statx_delivered k) as [r|].
  - destruct H1 as (pre & _ & _ & _ & ->), H2 as (pre' & _ & _ & _ & ->).
    cbn zeta. destruct r as [buf|e]; apply outcome_same_view.
    + apply same_view_copy_statx_attributes, same_view_statx_calls.
    + apply same_view_statx_calls.
  - rewrite H1, H2. apply outcome_same_view.
    eapply same_view_trans; [apply same_view_statx_retries|].
    apply same_view_sym, same_view_statx_retries.
Qed.

(** Given the same answers of the kernel, a query by path, whatever the
    path and the symlink policy, and a query by descriptor return the same
    value and leave the same attributes and the same pending exception. *)
Theorem X_statx0_statxfd0_agree env g path follow_links fd attrs k st :
  outcome (statx0 env g path attrs follow_links k st)
  = outcome (statxfd0 env g fd attrs k st).
Proof.
  destruct (my_statx_func g) eqn:Hg.
  - unfold statx0, statxfd0. by rewrite Hg.
  - rewrite (statx0_body _ _ _ _ _ _ _ Hg), (statxfd0_body _ _ _ _ _ _ Hg).
    apply statx_query_body_any_call.
Qed.

(** * The runs of a copy *)

Lemma answers_span cancel k :
  forallb (goes_on cancel) k = true
  \/ exists pre s rest,
       k = pre ++ s :: rest /\ forallb (goes_on cancel) pre = true
       /\ goes_on cancel s = false.
Proof.
  induction k as [|s k IH]; [by left|].
  destruct (goes_on cancel s) eqn:Hs.
  - destruct IH as [IH|(pre & s' & rest & -> & Hpre & Hs')].
    + left. cbn. by rewrite Hs, IH.
    + right. exists (s :: pre), s', rest. cbn. by rewrite Hs, Hpre.
  - right. by exists [], s, k.
Qed.

(** An answer that does not keep a loop turning. *)
Lemma decides_cases cancel s :
  goes_on cancel s = false ->
  interrupted s = false
  /\ ((exists e, answer s = Failure e /\ Z.pos e <> EINTR)
      \/ (exists n, answer s = Success n /\ observes_set cancel s = true)
      \/ (answer s = Success 0%N /\ observes_set cancel s = false)).
Proof.
  unfold goes_on. intros H. apply orb_false_elim in H as [Hi H].
  split; [exact Hi|]. destruct (answer s) as [n|e] eqn:Ha.
  - destruct (observes_set cancel s); [right; left; eauto|].
    right. right. split; [|reflexivity]. f_equal.
    rewrite andb_true_r in H. apply Z.ltb_ge in H. lia.
  - left. exists e. split; [reflexivity|].
    by apply (not_interrupted_failure s).
Qed.

Lemma tier_A_abandoned_snoc cancel pre s :
  forallb (goes_on cancel) pre = true ->
  abandons s = true -> observes_set cancel s = false ->
  tier_A_abandoned cancel (pre ++ [s]) = true.
Proof.
  intros Hpre Hs Ho. induction pre as [|a pre IH].
  - cbn. by rewrite Hs, Ho.
  - cbn [forallb] in Hpre. apply andb_prop in Hpre as [Ha Hpre].
    cbn [app tier_A_abandoned]. destruct (pre ++ [s]) eqn:E.
    + by destruct pre.
    + rewrite Ha. by apply IH.
Qed.

Lemma copy_run_tier_B env g dst src cancel kA kB st :
  reaches_tier_B g cancel kA = true ->
  copy_run env g dst src cancel (kA ++ kB) st
    (tier_B env dst src cancel (count_of cancel) kB
       (turns (cfr_call dst src cancel) cancel kA st)).
Proof.
  intros HkA.
  destruct (answers_span cancel kB) as [Hk|(pre & s & rest & -> & Hpre & Hs)].
  - rewrite <- (app_nil_r kB) at 2.
    rewrite (tier_B_goes_on _ _ _ _ _ _ _ _ Hk), tier_B_nil.
    by eapply B_starved.
  - rewrite (tier_B_goes_on _ _ _ _ _ _ _ _ Hpre), tier_B_cons. cbn zeta.
    apply decides_cases in Hs as [Hi Hs]. rewrite Hi.
    fold (sendfile_call dst src cancel).
    destruct Hs as [(e & Ha & He)|[(n & Ha & Ho)|[Ha Ho]]].
    + rewrite (xfer_ret_failure _ _ Ha), (errno_xfer_call_failure _ _ _ _ Ha).
      change (-1 <? 0) with true. cbn iota.
      destruct (Z.pos e =? EAGAIN) eqn:E1.
      { apply Z.eqb_eq in E1. by eapply B_unavailable. }
      destruct ((Z.pos e =? EINVAL) || (Z.pos e =? ENOSYS)) eqn:E2.
      { eapply B_unsupported; eauto.
        apply orb_prop in E2 as [E2|E2]; apply Z.eqb_eq in E2; auto. }
      apply orb_false_elim in E2 as [E2 E3].
      apply Z.eqb_neq in E1, E2, E3. by eapply B_failed.
    + rewrite (xfer_ret_success _ _ Ha), Ho.
      assert (H0 : (Z.of_N n <? 0) = false) by (apply Z.ltb_ge; lia).
      rewrite H0, <- (turn_polled _ _ _ _ Hi), <- turns_snoc.
      eapply B_cancelled; eauto. unfold polled_in_B. by rewrite Ha.
    + rewrite (xfer_ret_success _ _ Ha), Ho. cbn.
      rewrite <- (turn_polled _ _ _ _ Hi), <- turns_snoc.
      by eapply B_done.
Qed.

Lemma directCopy0_run env g dst src cancel k st :
  copy_run env g dst src cancel k st (directCopy0 env g dst src cancel k st).
Proof.
  destruct (my_copy_file_range_func g) eqn:Hg.
  - rewrite (directCopy0_no_copy_file_range _ _ _ _ _ _ _ Hg).
    apply (copy_run_tier_B env g dst src cancel [] k st).
    unfold reaches_tier_B. by rewrite Hg.
  - destruct (answers_span cancel k) as [Hk|(pre & s & rest & -> & Hpre & Hs)].
    + rewrite <- (app_nil_r k) at 2.
      rewrite (directCopy0_goes_on _ _ _ _ _ _ _ _ Hg Hk), directCopy0_nil.
      by apply A_starved.
    + apply decides_cases in Hs as [Hi Hs].
      destruct Hs as [(e & Ha & He)|[(n & Ha & Ho)|[Ha Ho]]].
      * destruct (abandons s) eqn:Hab.
        -- rewrite (directCopy0_goes_on _ _ _ _ _ _ _ _ Hg Hpre).
           rewrite (directCopy0_abandon _ _ _ _ _ _ _ _ Hg Hab). cbn zeta.
           rewrite <- turns_snoc. destruct (observes_set cancel s) eqn:Ho.
           ++ eapply A_cancelled; eauto. unfold polled_in_A. by rewrite Ha.
           ++ replace (pre ++ s :: rest) with ((pre ++ [s]) ++ rest)
                by (by rewrite <- app_assoc).
              apply copy_run_tier_B. unfold reaches_tier_B. rewrite Hg.
              by apply tier_A_abandoned_snoc.
        -- rewrite (directCopy0_goes_on _ _ _ _ _ _ _ _ Hg Hpre).
           rewrite (directCopy0_cons _ _ _ _ _ _ _ _ Hg). cbn zeta.
           rewrite Hi, (xfer_ret_failure _ _ Ha).
           rewrite (errno_xfer_call_failure _ _ _ _ Ha).
           unfold abandons in Hab. rewrite Ha in Hab. rewrite Hab. cbn.
           by eapply A_failed; eauto; unfold abandons; rewrite Ha.
      * rewrite (directCopy0_goes_on _ _ _ _ _ _ _ _ Hg Hpre).
        rewrite (directCopy0_cons _ _ _ _ _ _ _ _ Hg). cbn zeta.
        rewrite Hi, Ho, (xfer_ret_success _ _ Ha).
        assert (H0 : (Z.of_N n <? 0) = false) by (apply Z.ltb_ge; lia).
        rewrite H0, <- (turn_polled _ _ _ _ Hi), <- turns_snoc. cbn [andb].
        eapply A_cancelled; eauto. unfold polled_in_A. by rewrite Ha.
      * rewrite (directCopy0_goes_on _ _ _ _ _ _ _ _ Hg Hpre).
        rewrite (directCopy0_cons _ _ _ _ _ _ _ _ Hg). cbn zeta.
        rewrite Hi, Ho, (xfer_ret_success _ _ Ha). cbn.
        rewrite <- (turn_polled _ _ _ _ Hi), <- turns_snoc.
        by eapply A_done.
Qed.

(** Every run of directCopy0 ends in one of the ten ways of [copy_run]:
    out of answers, done, cancelled or failed in the copy_file_range loop,
    or, after that loop was abandoned or skipped, out of answers, done,
    cancelled, would block, unsupported or failed in the sendfile loop. *)
Theorem X_directCopy0_run env g dst src cancel k st :
  copy_run env g dst src cancel k st (directCopy0 env g dst src cancel k st).
Proof. apply directCopy0_run. Qed.

Lemma heap_xfer_call c s st : heap (xfer_call c s st) = heap st.
Proof. apply heap_after_call. Qed.

Lemma pending_xfer_call c s st : pending (xfer_call c s st) = pending st.
Proof. apply pending_after_call. Qed.

Lemma heap_ThrowIOException msg st :
  heap (JNU_ThrowIOExceptionWithLastError msg st) = heap st.
Proof. reflexivity. Qed.

Ltac run_state :=
  cbn [fst snd];
  rewrite ?heap_throwUnixException, ?heap_ThrowIOException, ?heap_xfer_call,
    ?heap_turns, ?pending_throwUnixException, ?pending_xfer_call,
    ?pending_turns.

Lemma copy_run_exceptions env g dst src cancel k st result :
  copy_run env g dst src cancel k st result ->
  heap (snd result) = heap st
  /\ (fst result <> Some IOS_THROWN -> pending (snd result) = pending st)
  /\ (fst result = Some IOS_THROWN -> can_allocate env = true ->
      is_Some (pending (snd result))).
Proof.
  intros H. destruct H; run_state;
    (split; [reflexivity|]); (split; [try done|]); try discriminate;
    intros _ Henv; rewrite ?Henv; eauto.
Qed.

(** directCopy0 never writes to the Java heap, and an exception is
    pending after it exactly as the status says: with every status but
    IOS_THROWN the pending exception is the one from before the call,
    and with IOS_THROWN one has been thrown, provided the JVM could build
    it. *)
Theorem X_directCopy0_exceptions env g dst src cancel k st :
  let result := directCopy0 env g dst src cancel k st in
  heap (snd result) = heap st
  /\ (fst result <> Some IOS_THROWN -> pending (snd result) = pending st)
  /\ (fst result = Some IOS_THROWN -> can_allocate env = true ->
      is_Some (pending (snd result))).
Proof.
  apply (copy_run_exceptions env g dst src cancel k st), directCopy0_run.
Qed.

Lemma syscall_rets_app evs1 evs2 :
  syscall_rets (evs1 ++ evs2) = syscall_rets evs1 ++ syscall_rets evs2.
Proof. apply omap_app. Qed.

Lemma syscall_rets_turn_events c cancel s :
  syscall_rets (turn_events c cancel s) = [xfer_ret s].
Proof.
  unfold turn_events. destruct (interrupted s), (negb (cancel =? 0)); reflexivity.
Qed.

Lemma last_ret_turns c cancel pre s st :
  last (syscall_rets (trace (turns c cancel (pre ++ [s]) st))) = Some (xfer_ret s).
Proof.
  rewrite turns_snoc, trace_turn, syscall_rets_app, syscall_rets_turn_events.
  apply last_snoc.
Qed.

Lemma copy_run_success env g dst src cancel k st st' :
  copy_run env g dst src cancel k st (Some OK, st') ->
  last (syscall_rets (trace st')) = Some 0.
Proof.
  intros H. inversion H; subst; rewrite last_ret_turns;
    match goal with
    | Ha : answer _ = Success 0%N |- _ =>
        by rewrite (xfer_ret_success _ _ Ha)
    end.
Qed.

(** directCopy0 returns 0 only when the last kernel call it made, a
    copy_file_range or sendfile64 call, returned 0: success is never
    reported before the kernel has signalled the end of the data. *)
Theorem X_directCopy0_success env g dst src cancel k st :
  fst (directCopy0 env g dst src cancel k st) = Some OK ->
  last (syscall_rets (trace (snd (directCopy0 env g dst src cancel k st))))
  = Some 0.
Proof.
  intros H. apply (copy_run_success env g dst src cancel k st).
  rewrite <- H, <- surjective_pairing. apply directCopy0_run.
Qed.

Lemma X_directCopy0_success_witness :
  fst (directCopy0 env_ok caps_all 3 4 4096
         [chunk 7 0; fails 22 0; chunk 9 0; chunk 0 0] state0) = Some OK
  /\ last (syscall_rets (trace (snd (directCopy0 env_ok caps_all 3 4 4096
             [chunk 7 0; fails 22 0; chunk 9 0; chunk 0 0] state0))))
     = Some 0.
Proof.
  split; [reflexivity|].
  apply (X_directCopy0_success env_ok caps_all 3 4 4096
           [chunk 7 0; fails 22 0; chunk 9 0; chunk 0 0] state0 eq_refl).
Defined.

Lemma extends_turns c cancel pre st :
  extends (chunk_event c) st (turns c cancel pre st).
Proof.
  exists (turns_events c cancel pre). split;
    [apply trace_turns | apply turns_events_chunk].
Qed.

Lemma extends_refl P st : extends P st st.
Proof. by apply extends_same. Qed.

Lemma extends_call c s st : extends (chunk_event c) st (xfer_call c s st).
Proof. apply extends_xfer_call, chunk_event_call. Qed.

Lemma reaches_tier_B_without g cancel kA :
  my_copy_file_range_func g = NULL ->
  reaches_tier_B g cancel kA = true -> kA = [].
Proof. unfold reaches_tier_B. intros ->. by destruct kA. Qed.

Lemma reaches_tier_B_with g cancel kA :
  my_copy_file_range_func g = Resolved ->
  reaches_tier_B g cancel kA = true -> kA <> [].
Proof. unfold reaches_tier_B. intros ->. by destruct kA. Qed.

Lemma copy_run_tiers env g dst src cancel k st result :
  copy_run env g dst src cancel k st result ->
  exists stA,
    extends (chunk_event (cfr_call dst src cancel)) st stA
    /\ extends (chunk_event (sendfile_call dst src cancel)) stA (snd result)
    /\ (my_copy_file_range_func g = NULL -> stA = st).
Proof.
  intros H. destruct H; cbn [snd];
    try (eexists; split; [|split; [apply extends_refl|congruence]];
         repeat first [ apply extends_throwUnixException
                      | apply extends_ThrowIOException
                      | apply extends_turns
                      | eapply extends_trans;
                        [apply extends_turns | apply extends_call] ]; fail);
    (exists (turns (cfr_call dst src cancel) cancel kA st);
     split; [apply extends_turns|];
     split; [|intros Hg; by rewrite (reaches_tier_B_without g cancel kA Hg)];
     repeat first [ apply extends_throwUnixException
                  | apply extends_turns
                  | eapply extends_trans;
                    [apply extends_turns | apply extends_call] ]).
Qed.

(** The kernel calls of a run come in two blocks: copy_file_range calls,
    then sendfile64 calls.  Once sendfile64 has been called,
    copy_file_range is not called again, and when copy_file_range was not
    resolved it is not called at all. *)
Theorem X_directCopy0_tiers env g dst src cancel k st :
  exists stA,
    extends (chunk_event (cfr_call dst src cancel)) st stA
    /\ extends (chunk_event (sendfile_call dst src cancel)) stA
         (snd (directCopy0 env g dst src cancel k st))
    /\ (my_copy_file_range_func g = NULL -> stA = st).
Proof.
  apply (copy_run_tiers env g dst src cancel k st), directCopy0_run.
Qed.

Lemma no_poll_turn_events c s :
  forallb not_a_poll (turn_events c 0 s) = true.
Proof. unfold turn_events. by destruct (interrupted s). Qed.

Lemma no_poll_turns c pre st st1 :
  extends not_a_poll st st1 -> extends not_a_poll st (turns c 0 pre st1).
Proof.
  intros H. eapply extends_trans; [exact H|].
  exists (turns_events c 0 pre). split; [apply trace_turns|].
  unfold turns_events. induction pre as [|s pre IH]; [reflexivity|].
  cbn [map concat]. by rewrite forallb_app, no_poll_turn_events, IH.
Qed.

Lemma no_poll_call c s st st1 :
  extends not_a_poll st st1 -> extends not_a_poll st (xfer_call c s st1).
Proof.
  intros H. eapply extends_trans; [exact H|]. by apply extends_xfer_call.
Qed.

Lemma copy_run_no_poll env g dst src k st result :
  copy_run env g dst src 0 k st result ->
  extends not_a_poll st (snd result).
Proof.
  intros H. destruct H; cbn [snd];
    repeat first [ apply extends_refl
                 | apply extends_throwUnixException
                 | apply extends_ThrowIOException
                 | apply no_poll_turns
                 | apply no_poll_call ].
Qed.

(** Without a cancellation handle (address 0) directCopy0 never reads a
    cancellation word: no event it adds to the trace is a read of one. *)
Theorem X_directCopy0_no_handle_no_poll env g dst src k st :
  extends not_a_poll st (snd (directCopy0 env g dst src 0 k st)).
Proof. apply (copy_run_no_poll env g dst src k st), directCopy0_run. Qed.

Lemma last_trace_xfer_call c s st :
  last (trace (xfer_call c s st)) = Some (Syscall c (xfer_ret s)).
Proof. rewrite trace_xfer_call. apply last_snoc. Qed.

Lemma copy_run_unavailable env g dst src cancel k st st' :
  copy_run env g dst src cancel k st (Some IOS_UNAVAILABLE, st') ->
  errno st' = EAGAIN
  /\ last (trace st') = Some (Syscall (sendfile_call dst src cancel) (-1)).
Proof.
  intros H. inversion H; subst.
  match goal with
  | Ha : answer _ = Failure _, He : Z.pos _ = EAGAIN |- _ =>
      rewrite (errno_xfer_call_failure _ _ _ _ Ha), last_trace_xfer_call,
        (xfer_ret_failure _ _ Ha); by split
  end.
Qed.

Lemma copy_run_unsupported env g dst src cancel k st st' :
  copy_run env g dst src cancel k st (Some IOS_UNSUPPORTED_CASE, st') ->
  (errno st' = EINVAL \/ errno st' = ENOSYS)
  /\ last (trace st') = Some (Syscall (sendfile_call dst src cancel) (-1)).
Proof.
  intros H. inversion H; subst.
  match goal with
  | Ha : answer _ = Failure _ |- _ =>
      rewrite (errno_xfer_call_failure _ _ _ _ Ha), last_trace_xfer_call,
        (xfer_ret_failure _ _ Ha); by split
  end.
Qed.

(** directCopy0 returns IOS_UNAVAILABLE only straight after a sendfile64
    call that failed with EAGAIN, and IOS_UNSUPPORTED_CASE only straight
    after a sendfile64 call that failed with EINVAL or ENOSYS; errno still
    holds that error on return.  A failing copy_file_range call never
    gives either status. *)
Theorem X_directCopy0_fallback_statuses env g dst src cancel k st :
  let result := directCopy0 env g dst src cancel k st in
  (fst result = Some IOS_UNAVAILABLE ->
     errno (snd result) = EAGAIN
     /\ last (trace (snd result))
        = Some (Syscall (sendfile_call dst src cancel) (-1)))
  /\ (fst result = Some IOS_UNSUPPORTED_CASE ->
     (errno (snd result) = EINVAL \/ errno (snd result) = ENOSYS)
     /\ last (trace (snd result))
        = Some (Syscall (sendfile_call dst src cancel) (-1))).
Proof.
  intros result.
  pose proof (directCopy0_run env g dst src cancel k st) as H.
  fold result in H. destruct result as [r st']. cbn [fst snd].
  split; intros ->.
  - by apply (copy_run_unavailable env g dst src cancel k st).
  - by apply (copy_run_unsupported env g dst src cancel k st).
Qed.

Lemma directCopy0_progress env g dst src cancel k st :
  forallb (goes_on cancel) k = true ->
  directCopy0 env g dst src cancel k st =
  (None,
   turns (match my_copy_file_range_func g with
          | Resolved => cfr_call dst src cancel
          | NULL => sendfile_call dst src cancel
          end) cancel k st).
Proof.
  intros Hk. destruct (my_copy_file_range_func g) eqn:Hg.
  - rewrite (directCopy0_no_copy_file_range _ _ _ _ _ _ _ Hg).
    rewrite <- (app_nil_r k) at 1.
    rewrite (tier_B_goes_on _ _ _ _ _ _ _ _ Hk), tier_B_nil. reflexivity.
  - rewrite <- (app_nil_r k) at 1.
    rewrite (directCopy0_goes_on _ _ _ _ _ _ _ _ Hg Hk), directCopy0_nil.
    reflexivity.
Qed.

(** While every kernel call is either restarted after EINTR or moves a
    chunk of positive length with no cancellation seen, directCopy0 does
    not return and stays with one system call: copy_file_range when it was
    resolved, sendfile64 otherwise, called once per answer. *)
Theorem X_directCopy0_progress env g dst src cancel k st :
  forallb (goes_on cancel) k = true ->
  directCopy0 env g dst src cancel k st =
  (None,
   turns (match my_copy_file_range_func g with
          | Resolved => cfr_call dst src cancel
          | NULL => sendfile_call dst src cancel
          end) cancel k st).
Proof. apply directCopy0_progress. Qed.

Lemma X_directCopy0_progress_witness :
  forallb (goes_on 4096) [chunk 7 0; fails 4 0; chunk 9 0] = true
  /\ directCopy0 env_ok caps_none 3 4 4096 [chunk 7 0; fails 4 0; chunk 9 0]
       state0 =
     (None,
      turns (sendfile_call 3 4 4096) 4096 [chunk 7 0; fails 4 0; chunk 9 0]
        state0).
Proof.
  split; [reflexivity|].
  apply (X_directCopy0_progress env_ok caps_none 3 4 4096
           [chunk 7 0; fails 4 0; chunk 9 0] state0 eq_refl).
Defined.

(** * From initialisation to the copy *)

Lemma init_incomplete_copy rt s env dst src cancel k st :
  my_copy_file_range_func (table s) = NULL ->
  init_completes rt = false ->
  directCopy0 env (table (init rt s)) dst src cancel k st
  = tier_B env dst src cancel (count_of cancel) k st.
Proof.
  intros Hs Hrt. apply directCopy0_no_copy_file_range.
  destruct (init_probe_facts rt s) as (_ & -> & _). by rewrite Hrt.
Qed.

(** When init returns early, at a class or field it does not find,
    copy_file_range is never looked up: a copy made with the table init
    left behind goes straight to sendfile64 and issues no copy_file_range
    call, even where the linker would have resolved the symbol. *)
Theorem X_init_incomplete_copy rt s env dst src cancel k st :
  my_copy_file_range_func (table s) = NULL ->
  init_completes rt = false ->
  directCopy0 env (table (init rt s)) dst src cancel k st
  = tier_B env dst src cancel (count_of cancel) k st
  /\ extends (chunk_event (sendfile_call dst src cancel)) st
       (snd (directCopy0 env (table (init rt s)) dst src cancel k st)).
Proof.
  intros Hs Hrt. rewrite (init_incomplete_copy _ _ _ _ _ _ _ _ Hs Hrt).
  split; [reflexivity|]. apply tier_B_extends.
Qed.

Lemma X_init_incomplete_copy_witness :
  my_copy_file_range_func (table statics0) = NULL
  /\ init_completes runtime_without_st_gid = false
  /\ dlsym runtime_without_st_gid "copy_file_range" = Resolved
  /\ directCopy0 env_ok (table (init runtime_without_st_gid statics0)) 3 4 0
       [chunk 7 0; chunk 0 0] state0
     = tier_B env_ok 3 4 0 (count_of 0) [chunk 7 0; chunk 0 0] state0.
Proof.
  split; [reflexivity|]. split; [reflexivity|]. split; [reflexivity|].
  apply (X_init_incomplete_copy runtime_without_st_gid statics0 env_ok 3 4 0
           [chunk 7 0; chunk 0 0] state0 eq_refl eq_refl).
Defined.
